(** * translate.py: a verification development

    A shallow embedding of [translate.py], the document translator:
    the word-aligned chunker and the translation adapter, the archive-based
    rewriter for word-processor documents, the page-description rewriter,
    the converter bridge and the dispatcher.

    Python values are embedded as follows.
    - [str] is a list of Unicode code points ([N]); [len] is [length].
    - A Python [int] is a [Z].
    - Code that may raise returns a [result]; code that reads or changes
      the file system, prints, or talks to a collaborator runs in the
      state-and-exception monad [M] over [World]. *)

From Stdlib Require Import Ascii String.
From Stdlib Require Import List NArith ZArith Lia Bool Permutation.
Import ListNotations.

Set Implicit Arguments.

(** ** Python strings *)

Module Py.

Definition char := N.
Definition str := list char.

(** A literal: each character of the Rocq string is one code point
    (literals in this file are ASCII). *)
Definition lit (s : string) : str :=
  map N_of_ascii (list_ascii_of_string s).

Definition str_eqb (a b : str) : bool :=
  if list_eq_dec N.eq_dec a b then true else false.

(** [str.isspace] on one code point, the predicate [str.split()] and
    [str.strip()] use: CPython's [_PyUnicode_IsWhitespace]. *)
Definition isspace (c : char) : bool :=
  ((9 <=? c) && (c <=? 13)            (* \t \n \v \f \r *)
   || (28 <=? c) && (c <=? 32)        (* FS GS RS US and the space *)
   || (c =? 133) || (c =? 160)        (* NEL, no-break space *)
   || (c =? 5760)
   || (8192 <=? c) && (c <=? 8202)
   || (c =? 8232) || (c =? 8233)
   || (c =? 8239) || (c =? 8287) || (c =? 12288))%N.

Definition space : char := 32%N.

(** [s.lstrip()], [s.rstrip()], [s.strip()] without argument. *)
Fixpoint lstrip (s : str) : str :=
  match s with
  | c :: s' => if isspace c then lstrip s' else s
  | [] => []
  end.

Definition rstrip (s : str) : str := rev (lstrip (rev s)).

Definition strip (s : str) : str := lstrip (rstrip s).

(** [s.split()] without argument: the maximal runs of non-whitespace, in
    order. [w] is the word being scanned. *)
Fixpoint split_from (w : str) (s : str) : list str :=
  match s with
  | [] => match w with [] => [] | _ => [w] end
  | c :: s' =>
      if isspace c
      then match w with [] => split_from [] s' | _ => w :: split_from [] s' end
      else split_from (w ++ [c]) s'
  end.

Definition split (s : str) : list str := split_from [] s.

(** [sep.join(parts)] *)
Fixpoint join (sep : str) (parts : list str) : str :=
  match parts with
  | [] => []
  | [p] => p
  | p :: ps => p ++ sep ++ join sep ps
  end.

Definition len (s : str) : Z := Z.of_nat (length s).

(** [s.lower()] and [s.upper()] restricted to the ASCII letters; other
    code points are kept. No code point outside ASCII lowercases to an
    ASCII letter of the suffixes tested below, so the suffix tests agree
    with Python's. *)
Definition lower_char (c : char) : char :=
  if ((65 <=? c) && (c <=? 90))%N then (c + 32)%N else c.
Definition upper_char (c : char) : char :=
  if ((97 <=? c) && (c <=? 122))%N then (c - 32)%N else c.
Definition lower (s : str) : str := map lower_char s.
Definition upper (s : str) : str := map upper_char s.

Fixpoint startswith (s p : str) : bool :=
  match p, s with
  | [], _ => true
  | a :: p', b :: s' => (a =? b)%N && startswith s' p'
  | _ :: _, [] => false
  end.

Definition endswith (s p : str) : bool := startswith (rev s) (rev p).

(** [s.endswith((p1, p2, ...))] *)
Definition endswith_any (s : str) (ps : list str) : bool :=
  existsb (endswith s) ps.

End Py.
Import Py.

(** ** chunk_text *)

(** One iteration of the loop of [chunk_text] over [(chunks, current)]. *)
Definition chunk_step (max_len : Z) (st : list str * str) (word : str)
  : list str * str :=
  let '(chunks, current) := st in
  if (len current + len word + 1 >? max_len)%Z
  then @pair (list str) str (chunks ++ [strip current]) (word ++ [space])
  else @pair (list str) str chunks (current ++ word ++ [space]).

Definition chunk_text (text : str) (max_len : Z) : list str :=
  let '(chunks, current) :=
    fold_left (chunk_step max_len) (split text) (@pair (list str) str [] []) in
  match current with
  | [] => chunks
  | _ => chunks ++ [strip current]
  end.

(** The default of the parameter [max_len]. *)
Definition default_max_len : Z := 4000.


(** ** Exceptions and the world *)

(** The instances of [Exception] the program distinguishes:
    [FileNotFoundError] (caught by name in [convert_using_pandoc]) and
    every other one. [msg] is [str(e)]. *)
Inductive exn :=
| FileNotFoundError (msg : str)
| Error (msg : str).

Definition exn_str (e : exn) : str :=
  match e with FileNotFoundError m => m | Error m => m end.

Inductive result (A : Type) :=
| Ok (a : A)
| Raise (e : exn).
Arguments Raise {A} e.

Definition path := str.
Definition bytes := list Byte.byte.

(** A path inside an archive or below a directory, by components. *)
Definition rpath := list str.

(** The files of a zip archive (or of an extracted tree): relative path
    and content, each file listed once. Directories are the proper
    prefixes of the paths. *)
Definition archive := list (rpath * bytes).

(** A word-processor document as python-docx presents it: the text of
    the body paragraphs, and for every table its rows and the cells that
    [row.cells] lists. A merged cell is one cell object, listed once for
    every grid position it spans: [cell_id] tells the cell objects
    apart, and [cell_texts] is the text of the paragraphs of the cell
    when the document is opened. *)
Record Cell := { cell_id : nat; cell_texts : list str }.
Definition Row := list Cell.
Definition Table := list Row.
Record Document := { paragraphs : list str; tables : list Table }.

(** A rectangle of PyMuPDF. Its coordinates are floats in the program;
    they are only carried from a block to the drawing calls, and stand
    here as integers. *)
Record Rect := { x0 : Z; y0 : Z; x1 : Z; y1 : Z }.

(** A block of [page.get_text("blocks")]: [block[:4]] and [block[4]],
    which is [None] here when it is not a [str]. *)
Record Block := { block_bbox : Rect; block_text : option str }.

Inductive Color := WHITE.

Inductive DrawOp :=
| draw_rect (page : nat) (bbox : Rect) (fill : Color) (oc : Z)
| insert_htmlbox (page : nat) (bbox : Rect) (text : str) (oc : Z).

Definition op_oc (o : DrawOp) : Z :=
  match o with draw_rect _ _ _ oc => oc | insert_htmlbox _ _ _ oc => oc end.

(** An optional content group: its object number, name and state. *)
Record Ocg := { ocg_xref : Z; ocg_name : str; ocg_on : bool }.

(** The document PyMuPDF holds: what was opened, and the layers and
    drawings added since. The object numbers drawing allocates are not
    tracked. *)
Record PdfDoc := {
  pdf_base : bytes;
  pdf_page_count : nat;
  pdf_ocgs : list Ocg;
  pdf_ops : list DrawOp;
  pdf_xref_length : Z
}.

Inductive content :=
| Blob (b : bytes)
| Zip (a : archive)
| Pdf (d : PdfDoc).

(** The world. A file or a directory is known by the spelling of its
    path; the model does not identify two spellings of one file. *)
Record World := {
  files : path -> option content;
  isdir : path -> bool;
  stdout : list str;
  (** the texts sent to the translation backend, oldest first *)
  requests : list str;
  (** the argument vectors of the subprocesses run, oldest first *)
  spawned : list (list str)
}.

Definition set_files (f : path -> option content) (w : World) : World :=
  {| files := f; isdir := isdir w; stdout := stdout w;
     requests := requests w; spawned := spawned w |}.
Definition set_isdir (d : path -> bool) (w : World) : World :=
  {| files := files w; isdir := d; stdout := stdout w;
     requests := requests w; spawned := spawned w |}.
Definition set_stdout (o : list str) (w : World) : World :=
  {| files := files w; isdir := isdir w; stdout := o;
     requests := requests w; spawned := spawned w |}.
Definition set_requests (r : list str) (w : World) : World :=
  {| files := files w; isdir := isdir w; stdout := stdout w;
     requests := r; spawned := spawned w |}.
Definition set_spawned (c : list (list str)) (w : World) : World :=
  {| files := files w; isdir := isdir w; stdout := stdout w;
     requests := requests w; spawned := c |}.

(** ** The monad of the program *)

Definition M (A : Type) := World -> result A * World.

Definition ret {A} (a : A) : M A := fun w => (Ok a, w).

Definition bind {A B} (m : M A) (k : A -> M B) : M B :=
  fun w =>
    match m w with
    | (Ok a, w') => k a w'
    | (Raise e, w') => (Raise e, w')
    end.

Definition raise {A} (e : exn) : M A := fun w => (Raise e, w).

(** [try: body  except Exception as e: handler(e)] *)
Definition try_except {A} (body : M A) (handler : exn -> M A) : M A :=
  fun w =>
    match body w with
    | (Ok a, w') => (Ok a, w')
    | (Raise e, w') => handler e w'
    end.

Definition lift {A} (r : result A) : M A := fun w => (r, w).

Declare Scope monad_scope.
Delimit Scope monad_scope with monad.
Notation "x <- m ;; k" := (bind m (fun x => k))
  (at level 61, m at next level, right associativity) : monad_scope.
Notation "m ;; k" := (bind m (fun _ => k))
  (at level 61, right associativity) : monad_scope.
Open Scope monad_scope.

(** [print(line)] *)
Definition print (line : str) : M unit :=
  fun w => (Ok tt, set_stdout (stdout w ++ [line]) w).

(** [for x in xs: body(x)] *)
Fixpoint for_each {A} (xs : list A) (body : A -> M unit) : M unit :=
  match xs with
  | [] => ret tt
  | x :: xs' => body x ;; for_each xs' body
  end.

(** [[f(x) for x in xs]] *)
Fixpoint map_m {A B} (f : A -> M B) (xs : list A) : M (list B) :=
  match xs with
  | [] => ret []
  | x :: xs' => y <- f x ;; ys <- map_m f xs' ;; ret (y :: ys)
  end.

(** A loop that rebinds or mutates a local value [s]. *)
Fixpoint fold_m {A S} (body : S -> A -> M S) (xs : list A) (s : S) : M S :=
  match xs with
  | [] => ret s
  | x :: xs' => s' <- body s x ;; fold_m body xs' s'
  end.

(** ** os.path (posixpath) *)

Module OsPath.

Definition sep : char := 47%N.   (* / *)
Definition dot : char := 46%N.   (* . *)

Fixpoint take_while (f : char -> bool) (s : str) : str :=
  match s with
  | c :: s' => if f c then c :: take_while f s' else []
  | [] => []
  end.

Fixpoint drop_while (f : char -> bool) (s : str) : str :=
  match s with
  | c :: s' => if f c then drop_while f s' else s
  | [] => []
  end.

Definition is_char (a : char) (c : char) : bool := (c =? a)%N.
Definition isnt_char (a : char) (c : char) : bool := negb (c =? a)%N.

(** [p[:i]] and [p[i:]] for [i = p.rfind('/') + 1]. *)
Definition head (p : path) : str := rev (drop_while (isnt_char sep) (rev p)).
Definition basename (p : path) : str := rev (take_while (isnt_char sep) (rev p)).

(** [os.path.dirname]: the head without its trailing slashes, unless it
    consists of slashes only. *)
Definition dirname (p : path) : str :=
  let h := head p in
  if forallb (is_char sep) h then h else rev (drop_while (is_char sep) (rev h)).

(** [os.path.splitext]: the extension starts at the last dot of the
    last component, if a character other than a dot precedes it there. *)
Definition splitext (p : path) : str * str :=
  let b := basename p in
  let ext_rev := take_while (isnt_char dot) (rev b) in
  match drop_while (isnt_char dot) (rev b) with
  | [] => (p, [])                                (* no dot in the last component *)
  | _ :: root_rev =>
      if forallb (is_char dot) root_rev then (p, [])  (* leading dots only *)
      else (head p ++ rev root_rev, dot :: rev ext_rev)
  end.

(** [os.path.join(a, b)] *)
Definition join (a b : path) : path :=
  if startswith b [sep] then b
  else match a with
       | [] => b
       | _ => if endswith a [sep] then a ++ b else a ++ sep :: b
       end.

End OsPath.

(** ** The file system *)

(** [open(p, 'w')] needs the directory of [p]; the empty directory name
    is the current directory. *)
Definition parent_exists (w : World) (p : path) : bool :=
  match OsPath.dirname p with
  | [] => true
  | d => isdir w d
  end.

(** The directory names [os.makedirs(name)] creates when they are
    missing: [name] and what [dirname] reaches from it. *)
Fixpoint ancestors (fuel : nat) (name : path) : list path :=
  match fuel with
  | O => []
  | S fuel' =>
      match name with
      | [] => []
      | _ => name :: ancestors fuel' (OsPath.dirname name)
      end
  end.

(** [os.makedirs(name, exist_ok=True)] *)
Definition makedirs (name : path) : M unit :=
  fun w =>
    match name with
    | [] => (Raise (FileNotFoundError
                      (lit "[Errno 2] No such file or directory: ''")), w)
    | _ =>
        match files w name with
        | Some _ => (Raise (Error (lit "[Errno 17] File exists")), w)
        | None =>
            let made := ancestors (S (length name)) name in
            (Ok tt,
             set_isdir (fun p => isdir w p || existsb (str_eqb p) made) w)
        end
    end.

(** Opening [p] for writing and closing it with content [c]. *)
Definition write_file (p : path) (c : content) : M unit :=
  fun w =>
    if isdir w p
    then (Raise (Error (lit "[Errno 21] Is a directory")), w)
    else if parent_exists w p
    then (Ok tt,
          set_files (fun q => if str_eqb q p then Some c else files w q) w)
    else (Raise (FileNotFoundError
                   (lit "[Errno 2] No such file or directory")), w).

Definition read_file (p : path) : M content :=
  fun w =>
    match files w p with
    | Some c => (Ok c, w)
    | None => (Raise (FileNotFoundError
                        (lit "[Errno 2] No such file or directory")), w)
    end.

(** [os.rename(src, dst)] *)
Definition rename (src dst : path) : M unit :=
  c <- read_file src ;;
  write_file dst c ;;
  fun w => (Ok tt,
            set_files (fun q => if str_eqb q src then None else files w q) w).

(** What is below directory [d]. *)
Definition below (d p : path) : bool := startswith p (d ++ [OsPath.sep]).

(** [shutil.rmtree(d)], the cleanup of a temporary directory. *)
Definition rmtree (d : path) (w : World) : World :=
  set_isdir (fun p => if str_eqb p d || below d p then false else isdir w p)
    (set_files (fun p => if below d p then None else files w p) w).

(** ** Extracted trees *)

Definition rpath_eqb (p q : rpath) : bool :=
  if list_eq_dec (list_eq_dec N.eq_dec) p q then true else false.

Fixpoint lookup (t : archive) (p : rpath) : option bytes :=
  match t with
  | [] => None
  | (q, b) :: t' => if rpath_eqb q p then Some b else lookup t' p
  end.

(** Overwriting the file at [p]. *)
Definition overwrite (t : archive) (p : rpath) (b : bytes) : archive :=
  map (fun e => if rpath_eqb (fst e) p then (fst e, b) else e) t.

(** [children d p] is the name of the entry of directory [d] on the way
    to [p], if [p] is below [d]. *)
Fixpoint child (d p : rpath) : option str :=
  match d, p with
  | [], n :: _ => Some n
  | a :: d', b :: p' => if str_eqb a b then child d' p' else None
  | _, [] => None
  end.

Fixpoint dedup (l : list str) : list str :=
  match l with
  | [] => []
  | n :: l' => if existsb (str_eqb n) l' then dedup l' else n :: dedup l'
  end.

(** [os.listdir(d)] in the tree, every name once. *)
Definition listdir (t : archive) (d : rpath) : list str :=
  dedup (flat_map (fun e => match child d (fst e) with
                            | Some n => [n]
                            | None => []
                            end) t).

(** [os.path.exists(d)] in the tree. *)
Definition tree_exists (t : archive) (d : rpath) : bool :=
  match lookup t d, listdir t d with
  | None, [] => false
  | _, _ => true
  end.

(** Putting an entry at its place in a list ordered by [rank]. *)
Fixpoint insert_by (rank : rpath -> nat) (e : rpath * bytes) (l : archive)
  : archive :=
  match l with
  | [] => [e]
  | x :: l' =>
      if (rank (fst e) <=? rank (fst x))%nat then e :: l
      else x :: insert_by rank e l'
  end.

(** ** Collaborators *)

Record Env := {
  (** [GoogleTranslator.translate(text)] after the given earlier
      requests; the reply may be [None] *)
  backend : list str -> str -> result (option str);
  (** [docx.Document] on the parts of a file *)
  parse_docx : archive -> result Document;
  (** [pytesseract.image_to_string(Image.open(f))] on the bytes of [f] *)
  image_to_string : bytes -> result str;
  (** [Image.open], the white rectangle over the bottom 30 pixels, the
      text at [(10, height - 30)] in the default font and [img.save]:
      the bytes written back *)
  draw_overlay : bytes -> option str -> result bytes;
  (** [subprocess.run(cmd, check=True)] *)
  run_process : list str -> M unit;
  (** the directory [tempfile.TemporaryDirectory()] picks *)
  mkdtemp : World -> path;
  (** [page.get_text("blocks", flags=TEXT_DEHYPHENATE)] of a page *)
  get_text_blocks : PdfDoc -> nat -> list Block;
  (** [page.insert_htmlbox] refusing its arguments *)
  htmlbox_error : Rect -> str -> option exn;
  (** the place of a file in the order in which [os.walk(temp_dir)]
      yields the files of a tree; it follows the directory listings of
      the system *)
  walk_rank : archive -> rpath -> nat;
  (** the document that [doc.ez_save] writes for the one in memory: the
      save collects garbage and merges identical objects *)
  ez_saved : PdfDoc -> PdfDoc
}.

Section Translate.

Variable env : Env.

(** ** translate_text *)

(** [translator.translate(text)] *)
Definition translator_translate (text : str) : M (option str) :=
  fun w => (backend env (requests w) text,
            set_requests (requests w ++ [text]) w).

(** [' '.join(translated_chunks)]: a [TypeError] if an item is [None]. *)
Fixpoint all_str (parts : list (option str)) : option (list str) :=
  match parts with
  | [] => Some []
  | Some s :: parts' => option_map (cons s) (all_str parts')
  | None :: _ => None
  end.

Definition join_translated (parts : list (option str)) : M (option str) :=
  match all_str parts with
  | Some l => ret (Some (Py.join [space] l))
  | None => raise (Error (lit "sequence item: expected str instance, NoneType found"))
  end.

Definition translate_text (text : str) : M (option str) :=
  match strip text with
  | [] => ret (Some text)
  | _ =>
      if (len text >? 4000)%Z
      then
        let chunks := chunk_text text default_max_len in
        translated_chunks <- map_m translator_translate chunks ;;
        join_translated translated_chunks
      else translator_translate text
  end.

(** ** translate_docx *)

(** [paragraph.text = translate_text(paragraph.text)]; python-docx
    stores [None] as the empty text. *)
Definition translate_paragraph (text : str) : M str :=
  v <- translate_text text ;;
  ret (match v with Some s => s | None => [] end).

(** [Document(input_path)] *)
Definition open_document (input_path : path) : M Document :=
  fun w =>
    match files w input_path with
    | Some (Zip a) => (parse_docx env a, w)
    | _ => (Raise (Error (lit "Package not found")), w)
    end.

(** The texts the loop has written into cells, newest first. *)
Definition cell_store := list (nat * list str).

Fixpoint written (s : cell_store) (k : nat) : option (list str) :=
  match s with
  | [] => None
  | (k', texts) :: s' => if (k' =? k)%nat then Some texts else written s' k
  end.

(** The text of [cell.paragraphs] when the loop reaches the cell: what
    the loop wrote into this cell object before, or else what the
    document had. *)
Definition cell_now (s : cell_store) (c : Cell) : list str :=
  match written s (cell_id c) with
  | Some texts => texts
  | None => cell_texts c
  end.

(** The body of the loop over [row.cells]: every paragraph of the cell
    is read, translated and written back. *)
Definition translate_cell (s : cell_store) (c : Cell) : M cell_store :=
  texts <- map_m translate_paragraph (cell_now s c) ;;
  ret ((cell_id c, texts) :: s).

(** The loops over [table.rows] and [row.cells]. *)
Definition translate_row (s : cell_store) (row : Row) : M cell_store :=
  fold_m translate_cell row s.

Definition translate_table (s : cell_store) (table : Table) : M cell_store :=
  fold_m translate_row table s.

(** The two loops over [doc.paragraphs] and [doc.tables]; the result is
    the document object as changed in memory. *)
Definition translate_document (doc : Document) : M Document :=
  ps <- map_m translate_paragraph (paragraphs doc) ;;
  s <- fold_m translate_table (tables doc) [] ;;
  ret {| paragraphs := ps;
         tables :=
           map (map (map (fun c => {| cell_id := cell_id c;
                                      cell_texts := cell_now s c |})))
             (tables doc) |}.

(** [zipfile.ZipFile(input_path, 'r').extractall(temp_dir)]: the tree
    below the temporary directory, which no path of the world names. *)
Definition extractall (input_path : path) : M archive :=
  c <- read_file input_path ;;
  match c with
  | Zip a => ret a
  | _ => raise (Error (lit "File is not a zip file"))
  end.

Definition media_dir : rpath := [lit "word"; lit "media"].

Definition is_raster (img_file : str) : bool :=
  endswith_any (lower img_file) [lit ".png"; lit ".jpg"; lit ".jpeg"].

(** The body of the loop over [os.listdir(media_dir)], on the tree [t]. *)
Definition translate_image (t : archive) (img_file : str) : M archive :=
  if is_raster img_file
  then
    let img_path := media_dir ++ [img_file] in
    match lookup t img_path with
    | None => raise (Error (lit "[Errno 21] Is a directory"))
    | Some b =>
        img_text <- lift (image_to_string env b) ;;
        match strip img_text with
        | [] => ret t
        | _ =>
            translated_text <- translate_text img_text ;;
            b' <- lift (draw_overlay env b translated_text) ;;
            ret (overwrite t img_path b')
        end
    end
  else ret t.

Definition translate_media (t : archive) : M archive :=
  if tree_exists t media_dir
  then
    match lookup t media_dir with
    | Some _ => raise (Error (lit "[Errno 20] Not a directory"))
    | None => fold_m translate_image (listdir t media_dir) t
    end
  else ret t.

(** The files of the tree in the order in which [os.walk] yields them. *)
Definition walk (t : archive) : archive :=
  fold_right (insert_by (walk_rank env t)) [] t.

(** The block under [with tempfile.TemporaryDirectory()]: extract, the
    images, and the new archive of every file that [os.walk] finds. *)
Definition rezip (input_path output_path : path) : M unit :=
  t <- extractall input_path ;;
  t' <- translate_media t ;;
  write_file output_path (Zip (walk t')).

(** The [try] block of [translate_docx]. Nothing saves [doc']. *)
Definition translate_docx_body (input_path output_path : path) : M unit :=
  doc <- open_document input_path ;;
  doc' <- translate_document doc ;;
  rezip input_path output_path ;;
  makedirs (OsPath.dirname output_path).

Definition docx_failure (input_path : path) (e : exn) : str :=
  lit "Failed to translate DOCX " ++ input_path ++ lit ": " ++ exn_str e
    ++ lit ". Skipping.".

Definition translate_docx (input_path output_path : path) : M unit :=
  try_except (translate_docx_body input_path output_path)
    (fun e => print (docx_failure input_path e)).

(** ** translate_pdf *)

(** [pymupdf.open(input_path)] *)
Definition pymupdf_open (input_path : path) : M PdfDoc :=
  fun w =>
    match files w input_path with
    | Some (Pdf d) => (Ok d, w)
    | Some _ => (Raise (Error (lit "Failed to open file")), w)
    | None => (Raise (Error (lit "no such file")), w)
    end.

(** [doc.add_ocg(name, on=on)]: the new object number. *)
Definition add_ocg (d : PdfDoc) (name : str) (on : bool) : Z * PdfDoc :=
  let xref := pdf_xref_length d in
  (xref,
   {| pdf_base := pdf_base d;
      pdf_page_count := pdf_page_count d;
      pdf_ocgs := pdf_ocgs d
                  ++ [{| ocg_xref := xref; ocg_name := name; ocg_on := on |}];
      pdf_ops := pdf_ops d;
      pdf_xref_length := (xref + 1)%Z |}).

Definition add_op (d : PdfDoc) (o : DrawOp) : PdfDoc :=
  {| pdf_base := pdf_base d;
     pdf_page_count := pdf_page_count d;
     pdf_ocgs := pdf_ocgs d;
     pdf_ops := pdf_ops d ++ [o];
     pdf_xref_length := pdf_xref_length d |}.

(** The body of the loop over the blocks of page [pno]. *)
Definition translate_block (ocg_xref : Z) (pno : nat)
    (d : PdfDoc) (block : Block) : M PdfDoc :=
  let bbox := block_bbox block in
  match block_text block with
  | None => ret d                                   (* continue *)
  | Some original_text =>
      translated <- translate_text original_text ;;
      let translated := match translated with Some s => s | None => [] end in
      let d := add_op d (draw_rect pno bbox WHITE ocg_xref) in
      match htmlbox_error env bbox translated with
      | Some e => raise e
      | None => ret (add_op d (insert_htmlbox pno bbox translated ocg_xref))
      end
  end.

Definition translate_page (ocg_xref : Z) (d : PdfDoc) (pno : nat)
  : M PdfDoc :=
  fold_m (translate_block ocg_xref pno) (get_text_blocks env d pno) d.

(** [doc.ez_save(output_path)]; PyMuPDF refuses to save over the file
    it opened. *)
Definition ez_save (input_path : path) (d : PdfDoc) (output_path : path)
  : M unit :=
  if str_eqb output_path input_path
  then raise (Error (lit "save to original must be incremental"))
  else write_file output_path (Pdf (ez_saved env d)).

Definition layer_name : str := lit "Portuguese".

(** The [try] block of [translate_pdf] up to the loop over the pages:
    the document in memory when the loop is done. *)
Definition translate_pdf_doc (input_path : path) : M PdfDoc :=
  doc <- pymupdf_open input_path ;;
  let '(ocg_xref, doc) := add_ocg doc layer_name true in
  fold_m (translate_page ocg_xref) (seq 0 (pdf_page_count doc)) doc.

(** The [try] block of [translate_pdf]; [doc.subset_fonts()] changes
    nothing that is modelled. *)
Definition translate_pdf_body (input_path output_path : path) : M unit :=
  doc <- translate_pdf_doc input_path ;;
  makedirs (OsPath.dirname output_path) ;;
  ez_save input_path doc output_path.

Definition pdf_failure (input_path : path) (e : exn) : str :=
  lit "Failed to translate PDF " ++ input_path ++ lit ": " ++ exn_str e
    ++ lit ". Skipping.".

Definition translate_pdf (input_path output_path : path) : M unit :=
  try_except (translate_pdf_body input_path output_path)
    (fun e => print (pdf_failure input_path e)).

(** ** convert_using_pandoc *)

(** [l.insert(i, x)] *)
Definition list_insert {A} (l : list A) (i : Z) (x : A) : list A :=
  let n := Z.of_nat (length l) in
  let k := if (i <? 0)%Z then Z.max 0 (i + n) else Z.min i n in
  firstn (Z.to_nat k) l ++ x :: skipn (Z.to_nat k) l.

(** The file [convert_using_pandoc] asks for. *)
Definition pandoc_output (input_path output_dir to_format : str) : path :=
  let base_name := fst (OsPath.splitext (OsPath.basename input_path)) in
  OsPath.join output_dir (base_name ++ lit "." ++ to_format).

(** The list [cmd] when [subprocess.run] is called. *)
Definition pandoc_cmd (input_path output_dir to_format : str) : list str :=
  let output_path := pandoc_output input_path output_dir to_format in
  let cmd := [lit "pandoc"; input_path; lit "-o"; output_path] in
  if str_eqb to_format (lit "rtf")
  then list_insert cmd (-1) (lit "--to=rtf")
  else cmd.

Definition subprocess_run (cmd : list str) : M unit :=
  fun w => run_process env cmd (set_spawned (spawned w ++ [cmd]) w).

Definition convert_using_pandoc (input_path output_dir to_format : str)
  : M unit :=
  try_except (subprocess_run (pandoc_cmd input_path output_dir to_format))
    (fun e =>
       match e with
       | FileNotFoundError _ =>
           raise (FileNotFoundError
                    (lit "Pandoc not found. Install it via 'brew install pandoc' on macOS."))
       | _ =>
           print (lit "Pandoc error for " ++ input_path ++ lit ": " ++ exn_str e) ;;
           raise e
       end).

(** ** process_file *)

(** [with tempfile.TemporaryDirectory() as temp_dir: body]; the
    directory is removed on every way out. *)
Definition with_tempdir {A} (body : path -> M A) : M A :=
  fun w =>
    let temp_dir := mkdtemp env w in
    let '(r, w') :=
      body temp_dir (set_isdir (fun p => str_eqb p temp_dir || isdir w p) w) in
    (r, rmtree temp_dir w').

(** The [try] block of the branch for [.doc] and [.rtf]. *)
Definition bridge_body (input_path output_path ext : str) : M unit :=
  with_tempdir (fun temp_dir =>
    convert_using_pandoc input_path temp_dir (lit "docx") ;;
    let base_name := fst (OsPath.splitext (OsPath.basename input_path)) in
    let docx_path := OsPath.join temp_dir (base_name ++ lit ".docx") in
    translate_docx docx_path docx_path ;;
    let original_format := tl ext in
    let temp_output_dir := OsPath.dirname output_path in
    makedirs temp_output_dir ;;
    convert_using_pandoc docx_path temp_output_dir original_format ;;
    let converted_path :=
      OsPath.join temp_output_dir (base_name ++ lit "." ++ original_format) in
    if str_eqb converted_path output_path
    then ret tt
    else rename converted_path output_path).

Definition bridge_failure (input_path ext : str) (e : exn) : str :=
  lit "Failed to process " ++ upper ext ++ lit " file " ++ input_path
    ++ lit ": " ++ exn_str e
    ++ lit ". Skipping. Install Pandoc if not already.".

Definition process_file (input_path output_path ext : str) : M unit :=
  if str_eqb ext (lit ".docx") then translate_docx input_path output_path
  else if str_eqb ext (lit ".pdf") then translate_pdf input_path output_path
  else try_except (bridge_body input_path output_path ext)
         (fun e => print (bridge_failure input_path ext e)).

End Translate.

(** ** main: the tests of the loop body on a file name *)

(** The list of [ext in ['.docx', '.doc', '.pdf', '.rtf']]. *)
Definition recognized : list str :=
  [lit ".docx"; lit ".doc"; lit ".pdf"; lit ".rtf"].

(** What both loops of [main] do with a file name before they call
    [process_file]: a name that starts with a dot is skipped, and so is
    one whose lowercased extension is not in the list; otherwise the
    lowercased extension is the argument [ext] of [process_file]. The
    letters of the list are ASCII, and no code point outside ASCII
    lowercases to one of them, so the test agrees with Python's. *)
Definition dispatched_ext (file : str) : option str :=
  if startswith file (lit ".") then None
  else
    let ext := lower (snd (OsPath.splitext file)) in
    if existsb (str_eqb ext) recognized then Some ext else None.

(** * Vocabulary of the statements *)

(** The words [ws], each followed by one space: the running buffer of
    [chunk_text]. *)
Definition spaced (ws : list str) : str :=
  concat (map (fun w => w ++ [space]) ws).

Definition nospace (w : str) : Prop :=
  forallb (fun c => negb (isspace c)) w = true.

Definition word (w : str) : Prop := w <> [] /\ nospace w.

(** What the running buffer looks like when no word is longer than the
    limit. *)
Definition buffer_ok (max_len : Z) (current : str) : Prop :=
  current = [] \/ exists t, current = t ++ [space] /\ (len t <= max_len)%Z.

(** The number of requests a call of [translate_text] sends. *)
Definition calls_made (env : Env) (text : str) (w : World) : nat :=
  length (requests (snd (translate_text env text w))) - length (requests w).

(** The [try] block that [process_file] selects for an extension, and
    the line its handler prints. *)
Definition job_body (env : Env) (input_path output_path ext : str) : M unit :=
  if str_eqb ext (lit ".docx") then translate_docx_body env input_path output_path
  else if str_eqb ext (lit ".pdf") then translate_pdf_body env input_path output_path
  else bridge_body env input_path output_path ext.

Definition job_failure (input_path ext : str) (e : exn) : str :=
  if str_eqb ext (lit ".docx") then docx_failure input_path e
  else if str_eqb ext (lit ".pdf") then pdf_failure input_path e
  else bridge_failure input_path ext e.

(** [m] leaves the files and the directories alone. *)
Definition keeps_fs {A} (m : M A) : Prop :=
  forall w, files (snd (m w)) = files w /\ isdir (snd (m w)) = isdir w.

(** The paths [translate_docx] treats as images: the files of
    [word/media] whose name ends, in any case, in [.png], [.jpg] or
    [.jpeg]. *)
Definition image_path (p : rpath) : bool :=
  match p with
  | [a; b; n] =>
      str_eqb a (lit "word") && str_eqb b (lit "media") && is_raster n
  | _ => false
  end.

(** What a successful rewrite leaves of an image with bytes [b]: [b]
    itself if the recognized text is blank, and otherwise what
    [draw_overlay] made of [b] and of the translation of that text. *)
Definition image_rewritten (env : Env) (b b' : bytes) : Prop :=
  match image_to_string env b with
  | Ok t =>
      match strip t with
      | [] => b' = b
      | _ => exists tr w0 w1,
               translate_text env t w0 = (Ok tr, w1)
               /\ draw_overlay env b tr = Ok b'
      end
  | Raise _ => False
  end.

(** The images among the names already visited by the loop. *)
Definition names_hit (names : list str) (p : rpath) : bool :=
  existsb (fun n => rpath_eqb p (media_dir ++ [n]) && is_raster n) names.

Definition part_after (env : Env) (names : list str)
    (e e' : rpath * bytes) : Prop :=
  fst e' = fst e
  /\ if names_hit names (fst e)
     then image_rewritten env (snd e) (snd e')
     else snd e' = snd e.

(** A part of the input archive and the part at its place in the output
    archive. *)
Definition part_rewritten (env : Env) (e e' : rpath * bytes) : Prop :=
  fst e' = fst e
  /\ if image_path (fst e)
     then image_rewritten env (snd e) (snd e')
     else snd e' = snd e.

(** [m] leaves the files as they were when it raises. *)
Definition raise_keeps_files {A} (m : M A) : Prop :=
  forall w e w', m w = (Raise e, w') -> files w' = files w.

Definition always_raises {A} (m : M A) : Prop :=
  forall w, exists e w', m w = (Raise e, w').

(** The requests [translate_text] sends for a text when the backend
    answers every request. *)
Definition text_requests (text : str) : list str :=
  match strip text with
  | [] => []
  | _ => if (len text >? 4000)%Z then chunk_text text default_max_len
         else [text]
  end.

(** The drawings of one page, block by block: nothing for a block that
    is not text, and for a text block the white rectangle over its box
    followed by the translation (the empty text for [None]) in the same
    box, both in the layer [xref]. *)
Inductive block_ops (env : Env) (xref : Z) (pno : nat)
  : list Block -> list DrawOp -> Prop :=
| block_ops_nil : block_ops env xref pno [] []
| block_ops_skip (b : Block) (bs : list Block) (ops : list DrawOp) :
    block_text b = None ->
    block_ops env xref pno bs ops ->
    block_ops env xref pno (b :: bs) ops
| block_ops_draw (b : Block) (bs : list Block) (ops : list DrawOp)
    (t : str) (v : option str) (w0 w1 : World) :
    block_text b = Some t ->
    translate_text env t w0 = (Ok v, w1) ->
    block_ops env xref pno bs ops ->
    block_ops env xref pno (b :: bs)
      (draw_rect pno (block_bbox b) WHITE xref
       :: insert_htmlbox pno (block_bbox b)
            (match v with Some s => s | None => [] end) xref
       :: ops).

(** Groups of words packed greedily: the first word of every group but
    the first did not fit the buffer that held the group before it. *)
Fixpoint greedy (max_len : Z) (G : list (list str)) : Prop :=
  match G with
  | g :: G' =>
      match G' with
      | (w :: _) :: _ =>
          (len (spaced g) + len w + 1 > max_len)%Z /\ greedy max_len G'
      | [] :: _ => False
      | [] => True
      end
  | [] => True
  end.

(** A group that fits the limit with its spaces, or is a single word. *)
Definition fits (max_len : Z) (g : list str) : Prop :=
  (len (spaced g) <= max_len)%Z \/ (length g <= 1)%nat.

(** [f x] succeeds and sends exactly the requests [g x]. *)
Definition sends {A B} (f : A -> M B) (g : A -> list str) : Prop :=
  forall x w, exists y w',
    f x w = (Ok y, w') /\ requests w' = requests w ++ g x.

(** The message of [convert_using_pandoc] for a missing converter. *)
Definition pandoc_not_found : exn :=
  FileNotFoundError
    (lit "Pandoc not found. Install it via 'brew install pandoc' on macOS.").

(** [needle in line] *)
Fixpoint contains (line needle : str) : bool :=
  match line with
  | [] => startswith [] needle
  | _ :: rest => startswith line needle || contains rest needle
  end.

(** ** Concrete worlds and collaborators *)

Definition empty_world : World :=
  {| files := fun _ => None; isdir := fun _ => false; stdout := [];
     requests := []; spawned := [] |}.

(** A backend that answers every request with the request itself, and
    collaborators that find nothing and change nothing. *)
Definition echo_env : Env :=
  {| backend := fun _ t => Ok (Some t);
     parse_docx := fun _ => Ok {| paragraphs := []; tables := [] |};
     image_to_string := fun _ => Ok [];
     draw_overlay := fun b _ => Ok b;
     run_process := fun _ => ret tt;
     mkdtemp := fun _ => lit "/tmp/tmpdir";
     get_text_blocks := fun _ _ => [];
     htmlbox_error := fun _ _ => None;
     walk_rank := fun _ _ => 0%nat;
     ez_saved := fun d => d |}.

(** A document and its collaborators: the parser reads the text of the
    only paragraph from [word/document.xml]; the backend knows one
    phrase; an image shows that phrase unless its first byte is zero;
    the overlay is a byte added at the end; the directory walk lists
    [styles.xml] before [document.xml]. *)
Definition utf8 (s : string) : bytes := map byte_of_ascii (list_ascii_of_string s).

Definition document_xml : rpath := [lit "word"; lit "document.xml"].

Definition toy_parse (a : archive) : result Document :=
  match lookup a document_xml with
  | Some b => Ok {| paragraphs := [map (fun x => N_of_ascii (ascii_of_byte x)) b];
                    tables := [] |}
  | None => Raise (Error (lit "no document part"))
  end.

Definition docx_env : Env :=
  {| backend := fun _ t =>
       if str_eqb t (lit "Good morning") then Ok (Some (lit "Bom dia"))
       else Ok (Some t);
     parse_docx := toy_parse;
     image_to_string := fun b =>
       match b with
       | Byte.x00 :: _ => Ok []
       | _ => Ok (lit "Good morning")
       end;
     draw_overlay := fun b tr =>
       match tr with
       | Some _ => Ok (b ++ [Byte.xff])
       | None => Raise (Error (lit "expected str"))
       end;
     run_process := fun _ => ret tt;
     mkdtemp := fun _ => lit "/tmp/tmpdir";
     get_text_blocks := fun _ _ => [];
     htmlbox_error := fun _ _ => None;
     walk_rank := fun _ p =>
       if rpath_eqb p [lit "word"; lit "styles.xml"] then 0%nat else 1%nat;
     ez_saved := fun d => d |}.

Definition docx_parts : archive :=
  [ (document_xml, utf8 "Good morning");
    ([lit "word"; lit "styles.xml"], [Byte.x01]);
    ([lit "word"; lit "media"; lit "image1.PNG"], [Byte.x01; Byte.x02]);
    ([lit "word"; lit "media"; lit "image2.jpeg"], [Byte.x00]);
    ([lit "word"; lit "media"; lit "chart.emf"], [Byte.x03]) ].

Definition docx_world : World :=
  {| files := fun p => if str_eqb p (lit "translate/a.docx")
                       then Some (Zip docx_parts) else None;
     isdir := fun p => str_eqb p (lit "translate") || str_eqb p (lit "Portuguese");
     stdout := []; requests := []; spawned := [] |}.

(** The same world before the output directory exists. *)
Definition docx_world_bare : World :=
  {| files := files docx_world;
     isdir := fun p => str_eqb p (lit "translate");
     stdout := []; requests := []; spawned := [] |}.




(** The layer a run of [translate_pdf] has added to the document in
    memory: the last one. *)
Definition created_layer (d : PdfDoc) : option Ocg :=
  last (map Some (pdf_ocgs d)) None.

(** The document [d] with more drawings, all of them in the layer
    [xref], and nothing else changed. *)
Definition drawn_in_layer (xref : Z) (d0 d : PdfDoc) : Prop :=
  pdf_ocgs d = pdf_ocgs d0
  /\ exists new,
       pdf_ops d = pdf_ops d0 ++ new
       /\ Forall (fun o => op_oc o = xref) new.

(** Two page-description documents of one page with one text block; the
    second already has a layer, of another name. *)
Definition pdf_env : Env :=
  {| backend := fun _ t =>
       if str_eqb t (lit "Good morning") then Ok (Some (lit "Bom dia"))
       else Ok (Some t);
     parse_docx := toy_parse;
     image_to_string := fun _ => Ok [];
     draw_overlay := fun b _ => Ok b;
     run_process := fun _ => ret tt;
     mkdtemp := fun _ => lit "/tmp/tmpdir";
     get_text_blocks := fun _ pno =>
       match pno with
       | O => [ {| block_bbox := {| x0 := 72; y0 := 72; x1 := 300; y1 := 90 |};
                   block_text := Some (lit "Good morning") |};
                {| block_bbox := {| x0 := 72; y0 := 100; x1 := 300; y1 := 200 |};
                   block_text := None |} ]
       | _ => []
       end;
     htmlbox_error := fun _ _ => None;
     walk_rank := fun _ _ => 0%nat;
     ez_saved := fun d => d |}.

Definition pdf_a : PdfDoc :=
  {| pdf_base := utf8 "a"; pdf_page_count := 1; pdf_ocgs := [];
     pdf_ops := []; pdf_xref_length := 10 |}.

Definition pdf_b : PdfDoc :=
  {| pdf_base := utf8 "b"; pdf_page_count := 1;
     pdf_ocgs := [ {| ocg_xref := 7; ocg_name := lit "Notes";
                      ocg_on := true |} ];
     pdf_ops := []; pdf_xref_length := 12 |}.

Definition pdf_world : World :=
  {| files := fun p => if str_eqb p (lit "translate/a.pdf") then Some (Pdf pdf_a)
                       else if str_eqb p (lit "translate/b.pdf") then Some (Pdf pdf_b)
                       else None;
     isdir := fun p => str_eqb p (lit "translate") || str_eqb p (lit "Portuguese");
     stdout := []; requests := []; spawned := [] |}.

(** A backend that is out of quota, and a machine without the
    converter. *)
Definition failing_env : Env :=
  {| backend := fun _ _ => Raise (Error (lit "quota exceeded"));
     parse_docx := toy_parse;
     image_to_string := fun _ => Ok [];
     draw_overlay := fun b _ => Ok b;
     run_process := fun _ => raise (FileNotFoundError (lit "[Errno 2] No such file or directory: 'pandoc'"));
     mkdtemp := fun _ => lit "/tmp/tmpdir";
     get_text_blocks := fun _ _ => [];
     htmlbox_error := fun _ _ => None;
     walk_rank := fun _ _ => 0%nat;
     ez_saved := fun d => d |}.

(** A machine with a converter, which writes a document to the path
    that ends its command line, and a backend that is out of quota. *)
Definition toy_pandoc (cmd : list str) : M unit :=
  write_file (last cmd []) (Zip docx_parts).

Definition quota_env : Env :=
  {| backend := fun _ _ => Raise (Error (lit "quota exceeded"));
     parse_docx := toy_parse;
     image_to_string := fun _ => Ok [];
     draw_overlay := fun b _ => Ok b;
     run_process := toy_pandoc;
     mkdtemp := fun _ => lit "/tmp/tmpdir";
     get_text_blocks := fun _ _ => [];
     htmlbox_error := fun _ _ => None;
     walk_rank := fun _ _ => 0%nat;
     ez_saved := fun d => d |}.

Definition rtf_world : World :=
  {| files := fun p => if str_eqb p (lit "translate/a.rtf")
                       then Some (Blob (utf8 "Good morning")) else None;
     isdir := fun p => str_eqb p (lit "translate") || str_eqb p (lit "Portuguese");
     stdout := []; requests := []; spawned := [] |}.

(** A word of 4001 letters. *)
Definition long_word : str := repeat 97%N 4001.

(** Two letters with 3999 spaces between them: 4001 characters. *)
Definition wide_text : str := 97%N :: repeat space 3999 ++ [98%N].

(** * Theorems *)

(** ** The embedding on examples *)

Example chunk_text_flushes :
  chunk_text (lit "aa bb  cc d") 5 = [lit "aa"; lit "bb"; lit "cc d"].
Proof. vm_compute. reflexivity. Qed.

Example chunk_text_first_word_too_long :
  chunk_text (lit "abcdefg hi") 5 = [lit ""; lit "abcdefg"; lit "hi"].
Proof. vm_compute. reflexivity. Qed.

Example split_whitespace :
  split (9 :: lit " a" ++ [10; 160] ++ lit "bc  ")%N = [lit "a"; lit "bc"].
Proof. vm_compute. reflexivity. Qed.

Example dirname_ex : OsPath.dirname (lit "Portuguese/docs/a.docx") = lit "Portuguese/docs".
Proof. vm_compute. reflexivity. Qed.

Example dirname_bare : OsPath.dirname (lit "a.docx") = lit "".
Proof. vm_compute. reflexivity. Qed.

Example dirname_root : OsPath.dirname (lit "/a.docx") = lit "/".
Proof. vm_compute. reflexivity. Qed.

Example splitext_ex :
  OsPath.splitext (lit "report.v2.rtf") = (lit "report.v2", lit ".rtf").
Proof. vm_compute. reflexivity. Qed.

Example splitext_hidden : OsPath.splitext (lit ".bashrc") = (lit ".bashrc", lit "").
Proof. vm_compute. reflexivity. Qed.

Example splitext_dir_dot : OsPath.splitext (lit "a.b/c") = (lit "a.b/c", lit "").
Proof. vm_compute. reflexivity. Qed.

Example join_ex : OsPath.join (lit "Portuguese/") (lit "a.rtf") = lit "Portuguese/a.rtf".
Proof. vm_compute. reflexivity. Qed.

Example list_insert_before_last :
  list_insert [1; 2; 3; 4]%Z (-1) 9%Z = [1; 2; 3; 9; 4]%Z.
Proof. reflexivity. Qed.

Example is_raster_ex :
  map is_raster [lit "image1.PNG"; lit "a.jpeg"; lit "chart.emf"; lit "png"]
  = [true; true; false; false].
Proof. vm_compute. reflexivity. Qed.

(** ** Words, split and strip *)

Lemma space_isspace : isspace space = true.
Proof. reflexivity. Qed.

Lemma nospace_app (a b : str) : nospace a -> nospace b -> nospace (a ++ b).
Proof. unfold nospace. rewrite forallb_app. intros -> ->. reflexivity. Qed.

Lemma split_from_words (s w : str) :
  nospace w -> Forall word (split_from w s).
Proof.
  revert w. induction s as [|c s IH]; intros w Hw; simpl.
  - destruct w; constructor; [|constructor]. split; [discriminate|exact Hw].
  - destruct (isspace c) eqn:Hc.
    + destruct w.
      * apply IH. reflexivity.
      * constructor; [split; [discriminate|exact Hw]|]. apply IH. reflexivity.
    + apply IH. apply nospace_app; [exact Hw|].
      unfold nospace. simpl. rewrite Hc. reflexivity.
Qed.

Lemma split_words (s : str) : Forall word (split s).
Proof. apply split_from_words. reflexivity. Qed.

Lemma split_from_nospace (w acc rest : str) :
  nospace w -> split_from acc (w ++ rest) = split_from (acc ++ w) rest.
Proof.
  revert acc. induction w as [|c w IH]; intros acc Hw; simpl.
  - rewrite app_nil_r. reflexivity.
  - unfold nospace in Hw. simpl in Hw. apply andb_true_iff in Hw as [Hc Hw].
    apply negb_true_iff in Hc. rewrite Hc. rewrite IH by exact Hw.
    rewrite <- app_assoc. reflexivity.
Qed.

Lemma split_spaced (ws : list str) :
  Forall word ws -> split (spaced ws) = ws.
Proof.
  unfold split. induction 1 as [|w ws [Hne Hw] _ IH]; [reflexivity|].
  unfold spaced. simpl. fold (spaced ws). rewrite <- app_assoc.
  rewrite split_from_nospace by exact Hw. simpl.
  destruct w; [contradiction|]. rewrite IH. reflexivity.
Qed.

Lemma lstrip_decompose (s : str) :
  exists pre, s = pre ++ lstrip s /\ forallb isspace pre = true.
Proof.
  induction s as [|c s [pre [E H]]]; simpl.
  - exists []. auto.
  - destruct (isspace c) eqn:Hc.
    + exists (c :: pre). simpl. rewrite Hc, H. split; [f_equal; exact E|reflexivity].
    + exists []. auto.
Qed.

Lemma rstrip_decompose (s : str) :
  exists post, s = rstrip s ++ post /\ forallb isspace post = true.
Proof.
  destruct (lstrip_decompose (rev s)) as [pre [E H]].
  exists (rev pre). split.
  - unfold rstrip. rewrite <- rev_app_distr, <- E, rev_involutive. reflexivity.
  - rewrite forallb_forall in *. intros x Hx. apply H. apply in_rev. exact Hx.
Qed.

Lemma split_from_lspaces (pre s : str) :
  forallb isspace pre = true -> split_from [] (pre ++ s) = split_from [] s.
Proof.
  induction pre as [|c pre IH]; simpl; [reflexivity|].
  intros H. apply andb_true_iff in H as [Hc H]. rewrite Hc. auto.
Qed.

Lemma split_from_rspaces (post s w : str) :
  forallb isspace post = true -> split_from w (s ++ post) = split_from w s.
Proof.
  intros H. revert w. induction s as [|c s IH]; intros w; simpl.
  - revert w. induction post as [|c post IHp]; intros w; simpl; [reflexivity|].
    simpl in H. apply andb_true_iff in H as [Hc H]. rewrite Hc.
    destruct w; rewrite IHp by exact H; reflexivity.
  - destruct (isspace c); [destruct w|]; rewrite ?IH; reflexivity.
Qed.

Lemma split_strip (s : str) : split (strip s) = split s.
Proof.
  unfold split, strip.
  destruct (rstrip_decompose s) as [post [E1 H1]].
  destruct (lstrip_decompose (rstrip s)) as [pre [E2 H2]].
  rewrite E1 at 2. rewrite split_from_rspaces by exact H1.
  rewrite E2 at 2. rewrite split_from_lspaces by exact H2. reflexivity.
Qed.

Lemma lstrip_length (s : str) : (length (lstrip s) <= length s)%nat.
Proof.
  induction s as [|c s IH]; simpl; [lia|]. destruct (isspace c); simpl; lia.
Qed.

Lemma rstrip_snoc_space (t : str) : rstrip (t ++ [space]) = rstrip t.
Proof. unfold rstrip. rewrite rev_app_distr. reflexivity. Qed.

Lemma strip_length (s : str) : (length (strip s) <= length s)%nat.
Proof.
  unfold strip, rstrip.
  etransitivity; [apply lstrip_length|]. rewrite length_rev.
  etransitivity; [apply lstrip_length|]. rewrite length_rev. lia.
Qed.

Lemma strip_snoc_space_length (t : str) :
  (length (strip (t ++ [space])) <= length t)%nat.
Proof.
  unfold strip. rewrite rstrip_snoc_space. apply (strip_length t).
Qed.

Lemma strip_nil_split (s : str) : strip s = [] <-> split s = [].
Proof.
  rewrite <- (split_strip s). split.
  - intros ->. reflexivity.
  - intros H. unfold strip in *. destruct (lstrip (rstrip s)) as [|c r] eqn:E; [reflexivity|].
    exfalso.
    assert (Hc : isspace c = false).
    { clear H. revert E. generalize (rstrip s). intros u.
      induction u as [|a u IH]; simpl; [discriminate|].
      destruct (isspace a) eqn:Ha; [exact IH|]. intros [= <- _]. exact Ha. }
    unfold split in H. simpl in H. rewrite Hc in H. simpl in H.
    assert (G : forall r w, w <> [] -> split_from w r <> []).
    { clear. intros r. induction r as [|a r IH]; intros w Hw; simpl.
      - destruct w; [contradiction|discriminate].
      - destruct (isspace a); [destruct w; [contradiction|discriminate]|].
        apply IH. destruct w; discriminate. }
    apply (G r [c]); [discriminate|exact H].
Qed.

(** ** chunk_text *)

Lemma spaced_cons (w : str) (ws : list str) :
  spaced (w :: ws) = w ++ [space] ++ spaced ws.
Proof. unfold spaced. simpl. rewrite <- app_assoc. reflexivity. Qed.

Lemma spaced_snoc (ws : list str) (w : str) :
  spaced (ws ++ [w]) = spaced ws ++ w ++ [space].
Proof.
  unfold spaced. rewrite map_app, concat_app. simpl. rewrite app_nil_r.
  reflexivity.
Qed.

Lemma spaced_nil_inv (ws : list str) : spaced ws = [] -> ws = [].
Proof.
  destruct ws as [|w ws]; [reflexivity|]. rewrite spaced_cons.
  destruct w; discriminate.
Qed.

Lemma split_strip_spaced (ws : list str) :
  Forall word ws -> split (strip (spaced ws)) = ws.
Proof. intros H. rewrite split_strip. apply split_spaced. exact H. Qed.

(** The loop keeps [current] equal to the words taken since the last
    flush, each followed by a space; the words of the chunks and those
    words are the words consumed. *)
Lemma chunk_loop_words (max_len : Z) (ws : list str) :
  Forall word ws ->
  forall chunks pend, Forall word pend ->
  exists chunks' pend',
    fold_left (chunk_step max_len) ws (chunks, spaced pend)
      = (chunks', spaced pend')
    /\ Forall word pend'
    /\ flat_map split chunks' ++ pend' = flat_map split chunks ++ pend ++ ws.
Proof.
  induction 1 as [|w ws Hw Hws IH]; intros chunks pend Hp.
  - exists chunks, pend. rewrite app_nil_r. auto.
  - simpl. destruct (len (spaced pend) + len w + 1 >? max_len)%Z.
    + destruct (IH (chunks ++ [strip (spaced pend)]) [w]) as (c' & p' & E & Hp' & Hf).
      { constructor; [exact Hw|constructor]. }
      exists c', p'. unfold spaced at 2 in E. simpl in E. rewrite app_nil_r in E.
      split; [exact E|]. split; [exact Hp'|]. rewrite Hf.
      rewrite flat_map_app. simpl. rewrite app_nil_r.
      rewrite split_strip_spaced by exact Hp. rewrite <- !app_assoc. reflexivity.
    + destruct (IH chunks (pend ++ [w])) as (c' & p' & E & Hp' & Hf).
      { apply Forall_app. split; [exact Hp|]. constructor; [exact Hw|constructor]. }
      exists c', p'. rewrite spaced_snoc in E.
      split; [exact E|]. split; [exact Hp'|]. rewrite Hf.
      rewrite <- !app_assoc. reflexivity.
Qed.

(** The test of the loop, as an inequality. *)
Ltac test_true T := rewrite Z.gtb_ltb in T; apply Z.ltb_lt in T.
Ltac test_false T := rewrite Z.gtb_ltb in T; apply Z.ltb_ge in T.

Lemma buffer_ok_strip (max_len : Z) (current : str) :
  (0 <= max_len)%Z -> buffer_ok max_len current ->
  (len (strip current) <= max_len)%Z.
Proof.
  intros H0 [->|(t & -> & Ht)]; [exact H0|].
  pose proof (strip_snoc_space_length t). unfold len in *. lia.
Qed.

Lemma chunk_loop_bound (max_len : Z) (ws : list str) :
  (0 <= max_len)%Z ->
  Forall (fun w => (len w <= max_len)%Z) ws ->
  forall chunks current,
    Forall (fun c => (len c <= max_len)%Z) chunks ->
    buffer_ok max_len current ->
    Forall (fun c => (len c <= max_len)%Z)
      (fst (fold_left (chunk_step max_len) ws (chunks, current)))
    /\ buffer_ok max_len
         (snd (fold_left (chunk_step max_len) ws (chunks, current))).
Proof.
  intros H0. induction 1 as [|w ws Hw Hws IH]; intros chunks current Hc Hb.
  - auto.
  - simpl. destruct (len current + len w + 1 >? max_len)%Z eqn:T.
    + apply IH.
      * apply Forall_app. split; [exact Hc|].
        constructor; [|constructor]. apply buffer_ok_strip; assumption.
      * right. exists w. auto.
    + apply IH; [exact Hc|]. right. exists (current ++ w).
      split; [rewrite <- app_assoc; reflexivity|].
      test_false T.
      unfold len in *. rewrite length_app. lia.
Qed.

(** The number of chunks grows exactly when a flush happens, and no
    flush happens exactly when the buffer never passes the limit. *)
Lemma chunk_loop_count (max_len : Z) (ws : list str) :
  forall chunks current,
    let st := fold_left (chunk_step max_len) ws (chunks, current) in
    (length chunks <= length (fst st))%nat
    /\ (snd st = [] -> current = [] /\ ws = [])
    /\ (length (fst st) = length chunks ->
        snd st = current ++ spaced ws
        /\ (ws <> [] -> (len (snd st) <= max_len)%Z))
    /\ ((length chunks < length (fst st))%nat ->
        (len (current ++ spaced ws) > max_len)%Z).
Proof.
  induction ws as [|w ws IH]; intros chunks current; simpl.
  - rewrite app_nil_r. repeat split; auto; try lia. contradiction.
  - destruct (len current + len w + 1 >? max_len)%Z eqn:T.
    + specialize (IH (chunks ++ [strip current]) (w ++ [space])).
      cbv zeta in IH. destruct IH as (L & N & _ & _).
      rewrite length_app in L. simpl in L.
      split; [lia|]. split; [|split].
      * intros H. apply N in H. destruct H as [H _]. destruct w; discriminate.
      * intros H. lia.
      * intros _. rewrite spaced_cons. test_true T.
        unfold len in *. rewrite !length_app. simpl. lia.
    + specialize (IH chunks (current ++ w ++ [space])).
      cbv zeta in IH. destruct IH as (L & N & E & G).
      test_false T.
      split; [lia|]. split; [|split].
      * intros H. apply N in H. destruct H as [H _].
        apply app_eq_nil in H. destruct H as [_ H]. destruct w; discriminate.
      * intros H. split.
        -- apply E in H. destruct H as [H _]. rewrite H, spaced_cons.
           rewrite <- !app_assoc. reflexivity.
        -- intros _. destruct ws as [|w' ws'].
           ++ simpl in *. unfold len in *. rewrite !length_app. simpl. lia.
           ++ apply E; [exact H|discriminate].
      * intros H. apply G in H. rewrite spaced_cons.
        rewrite <- !app_assoc in H. exact H.
Qed.

(** ** Claims about chunk_text *)

(** C8. For every text and every limit, the words of the chunks of
    [chunk_text], taken chunk after chunk, are the words of the text, in
    order. *)
Theorem chunk_text_words (text : str) (max_len : Z) :
  flat_map split (chunk_text text max_len) = split text.
Proof.
  unfold chunk_text.
  destruct (chunk_loop_words max_len (split_words text) [] (Forall_nil word))
    as (chunks & pend & E & Hp & Hf).
  change (spaced []) with (@nil char) in E. rewrite E. simpl in Hf.
  destruct (spaced pend) as [|c r] eqn:Es.
  - apply spaced_nil_inv in Es. subst pend. rewrite app_nil_r in Hf. exact Hf.
  - rewrite flat_map_app. simpl. rewrite app_nil_r, <- Es.
    rewrite split_strip_spaced by exact Hp. exact Hf.
Qed.

(** C2, as stated, fails: a text that is one word of 4001 characters
    gives a chunk of 4001 characters under the limit 4000. *)
Lemma chunk_text_long_word :
  ~ (forall text : str,
       Forall (fun c => (len c <= default_max_len)%Z)
         (chunk_text text default_max_len)).
Proof.
  intros H. specialize (H long_word).
  assert (E : chunk_text long_word default_max_len = [[]; long_word])
    by (vm_compute; reflexivity).
  rewrite E in H. inversion H as [|? ? _ H2]. inversion H2 as [|? ? H3 _].
  assert (L : len long_word = 4001%Z) by (vm_compute; reflexivity).
  rewrite L in H3. unfold default_max_len in H3. lia.
Qed.

(** If the limit is not negative and no word of the text is longer than
    the limit, every chunk of [chunk_text] has at most [max_len]
    characters. *)
Lemma chunk_text_bound (text : str) (max_len : Z) :
  (0 <= max_len)%Z ->
  Forall (fun w => (len w <= max_len)%Z) (split text) ->
  Forall (fun c => (len c <= max_len)%Z) (chunk_text text max_len).
Proof.
  intros H0 Hw. unfold chunk_text.
  destruct (chunk_loop_bound H0 Hw (chunks := []) (current := []))
    as [Hc Hb]; [constructor|left; reflexivity|].
  destruct (fold_left (chunk_step max_len) (split text) _)
    as [chunks current]. simpl in Hc, Hb.
  destruct current as [|c r]; [exact Hc|].
  apply Forall_app. split; [exact Hc|]. constructor; [|constructor].
  apply buffer_ok_strip; assumption.
Qed.

Lemma chunk_text_bound_witness :
  Forall (fun c => (len c <= 5)%Z) (chunk_text (lit "aa bb  cc d") 5).
Proof.
  apply chunk_text_bound; [lia|].
  repeat constructor; vm_compute; discriminate.
Defined.

(** ** Claims about translate_text *)

(** C7. For every text that is empty or consists of whitespace only,
    [translate_text] returns the text itself and leaves the world as it
    was: no request reaches the backend. *)
Theorem translate_text_blank (env : Env) (text : str) (w : World) :
  strip text = [] ->
  translate_text env text w = (Ok (Some text), w).
Proof. intros H. unfold translate_text. rewrite H. reflexivity. Qed.

Lemma translate_text_blank_witness :
  translate_text echo_env (lit "   ") empty_world
    = (Ok (Some (lit "   ")), empty_world)
  /\ calls_made echo_env (lit "   ") empty_world = 0%nat.
Proof.
  assert (E := @translate_text_blank echo_env (lit "   ") empty_world
                 eq_refl).
  split; [exact E|]. unfold calls_made. rewrite E. reflexivity.
Defined.

(** With a backend that never raises, the comprehension over the chunks
    sends one request per chunk, in order. *)
Lemma map_m_translate_requests (env : Env) :
  (forall h t, exists r, backend env h t = Ok r) ->
  forall chunks w,
  exists rs w',
    map_m (translator_translate env) chunks w = (Ok rs, w')
    /\ requests w' = requests w ++ chunks.
Proof.
  intros Htot. induction chunks as [|c chunks IH]; intros w.
  - exists [], w. rewrite app_nil_r. auto.
  - destruct (Htot (requests w) c) as [r Er].
    destruct (IH (set_requests (requests w ++ [c]) w)) as (rs & w' & Em & R).
    exists (r :: rs), w'. split.
    + simpl. unfold bind at 1. unfold translator_translate at 1.
      rewrite Er. unfold bind at 1. rewrite Em. reflexivity.
    + rewrite R. simpl. rewrite <- app_assoc. reflexivity.
Qed.

Lemma join_translated_world (parts : list (option str)) (w : World) :
  snd (join_translated parts w) = w.
Proof. unfold join_translated. destruct (all_str parts); reflexivity. Qed.

(** More than one chunk comes out exactly when the words, each followed
    by one space, do not fit the limit. *)
Lemma chunk_text_two (text : str) (max_len : Z) :
  split text <> [] ->
  ((2 <= length (chunk_text text max_len))%nat
   <-> (len (spaced (split text)) > max_len)%Z).
Proof.
  intros Hne. unfold chunk_text.
  pose proof (chunk_loop_count max_len (split text) [] []) as C.
  cbv zeta in C.
  destruct (fold_left (chunk_step max_len) (split text) _)
    as [chunks current].
  destruct C as (_ & N & Eq & G). simpl in *.
  destruct current as [|c r].
  - destruct N as [_ N]; [reflexivity|]. contradiction.
  - rewrite length_app. simpl. split.
    + intros H. apply G. lia.
    + intros H. destruct chunks as [|x xs]; [|simpl; lia].
      destruct Eq as [Ec Hb]; [reflexivity|]. specialize (Hb Hne).
      rewrite Ec in Hb. lia.
Qed.

(** C6, as stated, fails: a text of 4001 characters, two letters with
    3999 spaces between them, is sent to the backend in one request. *)
Lemma translate_text_wide_text :
  ~ (forall (env : Env) (text : str) (w : World),
       len text = (default_max_len + 1)%Z ->
       (2 <= calls_made env text w)%nat).
Proof.
  intros H. specialize (H echo_env wide_text empty_world).
  assert (L : len wide_text = (default_max_len + 1)%Z)
    by (vm_compute; reflexivity).
  specialize (H L).
  assert (E : calls_made echo_env wide_text empty_world = 1%nat)
    by (vm_compute; reflexivity).
  rewrite E in H. lia.
Qed.

(** C6, amended. For a text that is not blank: if its length is at most
    4000, exactly one request is sent, the text itself; if it is longer
    and the backend never raises, one request per chunk is sent, and
    these are at least two exactly when the words of the text, each
    followed by one space, take more than 4000 characters. *)
Theorem translate_text_calls (env : Env) (text : str) (w : World) :
  strip text <> [] ->
  ((len text <= 4000)%Z ->
   requests (snd (translate_text env text w)) = requests w ++ [text]
   /\ calls_made env text w = 1%nat)
  /\ ((len text > 4000)%Z ->
      (forall h t, exists r, backend env h t = Ok r) ->
      requests (snd (translate_text env text w))
        = requests w ++ chunk_text text default_max_len
      /\ calls_made env text w = length (chunk_text text default_max_len)
      /\ ((2 <= calls_made env text w)%nat
          <-> (len (spaced (split text)) > default_max_len)%Z)).
Proof.
  intros Hne.
  assert (Hs : split text <> []) by (rewrite <- strip_nil_split; exact Hne).
  unfold calls_made, translate_text.
  destruct (strip text) as [|c r] eqn:Es; [contradiction|]. split.
  - intros Hl. destruct (len text >? 4000)%Z eqn:T; [test_true T; lia|].
    simpl. rewrite length_app. simpl. split; [reflexivity|lia].
  - intros Hl Htot. destruct (len text >? 4000)%Z eqn:T; [|test_false T; lia].
    destruct (map_m_translate_requests env Htot
                (chunk_text text default_max_len) w) as (rs & w' & Em & R).
    assert (Q : requests
                  (snd ((translated_chunks <-
                           map_m (translator_translate env)
                             (chunk_text text default_max_len) ;;
                         join_translated translated_chunks) w))
                = requests w ++ chunk_text text default_max_len).
    { unfold bind. rewrite Em, join_translated_world. exact R. }
    rewrite Q. rewrite length_app.
    replace (length (requests w) + length (chunk_text text default_max_len)
             - length (requests w))%nat
      with (length (chunk_text text default_max_len)) by lia.
    split; [reflexivity|]. split; [reflexivity|].
    apply chunk_text_two. exact Hs.
Qed.

Lemma translate_text_calls_witness :
  requests (snd (translate_text echo_env (lit "good morning") empty_world))
    = [lit "good morning"]
  /\ calls_made echo_env (lit "good morning") empty_world = 1%nat.
Proof.
  apply (@translate_text_calls echo_env (lit "good morning") empty_world).
  - vm_compute. discriminate.
  - vm_compute. discriminate.
Defined.

(** ** Claims about the converter and the dispatcher *)

(** C3. The argument list given to [subprocess.run]. For every target
    format but [rtf] it is [pandoc <input> -o <output>]. For [rtf],
    [cmd.insert(-1, ...)] puts the flag before the last item: the list is
    [pandoc <input> -o --to=rtf <output>], where the argument of [-o] is
    the flag and not the output path. *)
Theorem pandoc_cmd_shape (input_path output_dir to_format : str) :
  pandoc_cmd input_path output_dir to_format
  = if str_eqb to_format (lit "rtf")
    then [lit "pandoc"; input_path; lit "-o"; lit "--to=rtf";
          pandoc_output input_path output_dir to_format]
    else [lit "pandoc"; input_path; lit "-o";
          pandoc_output input_path output_dir to_format].
Proof.
  unfold pandoc_cmd. destruct (str_eqb to_format (lit "rtf")); reflexivity.
Qed.

Example pandoc_cmd_rtf :
  pandoc_cmd (lit "/tmp/tmpdir/report.docx") (lit "Portuguese/docs") (lit "rtf")
  = [lit "pandoc"; lit "/tmp/tmpdir/report.docx"; lit "-o"; lit "--to=rtf";
     lit "Portuguese/docs/report.rtf"].
Proof. vm_compute. reflexivity. Qed.

Example pandoc_cmd_docx :
  pandoc_cmd (lit "translate/docs/report.v2.rtf") (lit "/tmp/tmpdir") (lit "docx")
  = [lit "pandoc"; lit "translate/docs/report.v2.rtf"; lit "-o";
     lit "/tmp/tmpdir/report.v2.docx"].
Proof. vm_compute. reflexivity. Qed.

(** The command reaches [subprocess.run] as built. *)
Lemma convert_using_pandoc_spawns (env : Env)
    (input_path output_dir to_format : str) (w : World) :
  (forall cmd w0, spawned (snd (run_process env cmd w0)) = spawned w0) ->
  spawned (snd (convert_using_pandoc env input_path output_dir to_format w))
  = spawned w ++ [pandoc_cmd input_path output_dir to_format].
Proof.
  intros H. unfold convert_using_pandoc, try_except, subprocess_run.
  specialize (H (pandoc_cmd input_path output_dir to_format)
                (set_spawned
                   (spawned w ++ [pandoc_cmd input_path output_dir to_format]) w)).
  destruct (run_process env _ _) as [[u|e] w']; simpl in *; [exact H|].
  destruct e; simpl; exact H.
Qed.

Lemma try_except_print (body : M unit) (line : exn -> str) (w : World) :
  try_except body (fun e => print (line e)) w
  = match body w with
    | (Ok _, w') => (Ok tt, w')
    | (Raise e, w') => (Ok tt, set_stdout (stdout w' ++ [line e]) w')
    end.
Proof.
  unfold try_except, print. destruct (body w) as [[[]|e] w']; reflexivity.
Qed.

Lemma process_file_unfold (env : Env) (input_path output_path ext : str) :
  process_file env input_path output_path ext
  = try_except (job_body env input_path output_path ext)
      (fun e => print (job_failure input_path ext e)).
Proof.
  unfold process_file, job_body, job_failure, translate_docx, translate_pdf.
  destruct (str_eqb ext (lit ".docx")); [reflexivity|].
  destruct (str_eqb ext (lit ".pdf")); reflexivity.
Qed.

Lemma job_failure_names_path (input_path ext : str) (e : exn) :
  exists pre post,
    job_failure input_path ext e
    = pre ++ input_path ++ lit ": " ++ exn_str e ++ post.
Proof.
  unfold job_failure, docx_failure, pdf_failure, bridge_failure.
  destruct (str_eqb ext (lit ".docx")); [|destruct (str_eqb ext (lit ".pdf"))].
  - eexists _, _. reflexivity.
  - eexists _, _. reflexivity.
  - exists (lit "Failed to process " ++ upper ext ++ lit " file "), (lit ". Skipping. Install Pandoc if not already.").
    rewrite <- !app_assoc. reflexivity.
Qed.

Lemma startswith_app (needle post : str) :
  startswith (needle ++ post) needle = true.
Proof.
  induction needle as [|c needle IH]; simpl.
  - destruct post; reflexivity.
  - rewrite N.eqb_refl, IH. reflexivity.
Qed.

Lemma contains_start (line needle : str) :
  startswith line needle = true -> contains line needle = true.
Proof.
  intros H. destruct line as [|c line]; [exact H|].
  change (contains (c :: line) needle)
    with (startswith (c :: line) needle || contains line needle).
  rewrite H. reflexivity.
Qed.

Lemma contains_infix (pre needle post : str) :
  contains (pre ++ needle ++ post) needle = true.
Proof.
  induction pre as [|c pre IH].
  - change ([] ++ needle ++ post) with (needle ++ post).
    apply contains_start. apply (startswith_app needle post).
  - change (contains ((c :: pre) ++ needle ++ post) needle)
      with (startswith (c :: pre ++ needle ++ post) needle
            || contains (pre ++ needle ++ post) needle).
    rewrite IH. apply orb_true_r.
Qed.

(** C5, as stated, fails for a job of the bridge: when the backend
    raises inside the rewriter that the bridge runs on the intermediate
    document, the only line printed names the intermediate document in
    the temporary directory; no line names the input path of the job,
    and the converted output is written all the same. *)
Lemma process_file_logs_other_path :
  ~ (forall (env : Env) (input_path output_path ext : str) (w : World),
       let r := process_file env input_path output_path ext w in
       stdout (snd r) <> stdout w ->
       exists line pre post,
         In line (stdout (snd r))
         /\ line = pre ++ input_path ++ post).
Proof.
  intros H.
  specialize (H quota_env (lit "translate/a.rtf") (lit "Portuguese/a.rtf")
                (lit ".rtf") rtf_world).
  cbv zeta in H.
  assert (E : stdout (snd (process_file quota_env (lit "translate/a.rtf")
                             (lit "Portuguese/a.rtf") (lit ".rtf") rtf_world))
              = [lit "Failed to translate DOCX /tmp/tmpdir/a.docx: quota exceeded. Skipping."])
    by (vm_compute; reflexivity).
  rewrite E in H.
  destruct H as (line & pre & post & Hin & Hl); [discriminate|].
  destruct Hin as [<-|[]].
  pose proof (contains_infix pre (lit "translate/a.rtf") post) as C.
  rewrite <- Hl in C. vm_compute in C. discriminate.
Qed.

(** The same job in full: it returns normally, both conversions are
    run, and the output is the converted document, untranslated. *)
Example bridge_goes_on_untranslated :
  let r := process_file quota_env (lit "translate/a.rtf")
             (lit "Portuguese/a.rtf") (lit ".rtf") rtf_world in
  fst r = Ok tt
  /\ files (snd r) (lit "Portuguese/a.rtf") = Some (Zip docx_parts)
  /\ spawned (snd r)
     = [ [lit "pandoc"; lit "translate/a.rtf"; lit "-o";
          lit "/tmp/tmpdir/a.docx"];
         [lit "pandoc"; lit "/tmp/tmpdir/a.docx"; lit "-o"; lit "--to=rtf";
          lit "Portuguese/a.rtf"] ]
  /\ files (snd r) (lit "/tmp/tmpdir/a.docx") = None.
Proof. cbv zeta. repeat split; vm_compute; reflexivity. Qed.

(** C5, amended. For every job and every behaviour of the collaborators,
    [process_file] returns normally. When the [try] block selected for
    the job raises [e], the world it leaves is kept and one line is
    printed, which names the input path of the job and [e]. The archive
    rewriter, wherever it is called, returns normally as well: when its
    [try] block raises, it prints the failure with the path it was
    given, which in the bridge is the intermediate document. *)
Theorem process_file_never_raises (env : Env)
    (input_path output_path ext : str) (w : World) :
  fst (process_file env input_path output_path ext w) = Ok tt
  /\ (forall e w1,
        job_body env input_path output_path ext w = (Raise e, w1) ->
        exists pre post,
          snd (process_file env input_path output_path ext w)
          = set_stdout
              (stdout w1
               ++ [pre ++ input_path ++ lit ": " ++ exn_str e ++ post]) w1)
  /\ (forall u w1,
        job_body env input_path output_path ext w = (Ok u, w1) ->
        snd (process_file env input_path output_path ext w) = w1)
  /\ (forall p q w0,
        fst (translate_docx env p q w0) = Ok tt
        /\ forall e w1,
             translate_docx_body env p q w0 = (Raise e, w1) ->
             snd (translate_docx env p q w0)
             = set_stdout (stdout w1 ++ [docx_failure p e]) w1).
Proof.
  rewrite process_file_unfold, try_except_print.
  split; [|split; [|split]].
  - destruct (job_body env input_path output_path ext w) as [[u|e] w1];
      reflexivity.
  - intros e w1 E. rewrite E. simpl.
    destruct (job_failure_names_path input_path ext e) as (pre & post & F).
    exists pre, post. rewrite F. reflexivity.
  - intros u w1 E. rewrite E. reflexivity.
  - intros p q w0. unfold translate_docx. rewrite try_except_print.
    split.
    + destruct (translate_docx_body env p q w0) as [[u|e] w1]; reflexivity.
    + intros e w1 E. rewrite E. reflexivity.
Qed.

(** ** What leaves the file system alone *)

Lemma keeps_ret {A} (a : A) : keeps_fs (ret a).
Proof. intros w. auto. Qed.

Lemma keeps_raise {A} (e : exn) : keeps_fs (@raise A e).
Proof. intros w. auto. Qed.

Lemma keeps_lift {A} (r : result A) : keeps_fs (lift r).
Proof. intros w. auto. Qed.

Lemma keeps_bind {A B} (m : M A) (k : A -> M B) :
  keeps_fs m -> (forall a, keeps_fs (k a)) -> keeps_fs (bind m k).
Proof.
  intros Hm Hk w. unfold bind. specialize (Hm w).
  destruct (m w) as [[a|e] w1]; simpl in *; [|exact Hm].
  destruct (Hk a w1) as [F D]. destruct Hm as [F1 D1].
  rewrite F, D. auto.
Qed.

Lemma keeps_map_m {A B} (f : A -> M B) (xs : list A) :
  (forall x, keeps_fs (f x)) -> keeps_fs (map_m f xs).
Proof.
  intros H. induction xs as [|x xs IH]; simpl.
  - apply keeps_ret.
  - apply keeps_bind; [apply H|]. intros y.
    apply keeps_bind; [exact IH|]. intros ys. apply keeps_ret.
Qed.

Lemma keeps_fold_m {A S} (body : S -> A -> M S) (xs : list A) :
  (forall s x, keeps_fs (body s x)) -> forall s, keeps_fs (fold_m body xs s).
Proof.
  intros H. induction xs as [|x xs IH]; intros s; simpl.
  - apply keeps_ret.
  - apply keeps_bind; [apply H|]. exact IH.
Qed.

Lemma keeps_translator_translate (env : Env) (text : str) :
  keeps_fs (translator_translate env text).
Proof. intros w. auto. Qed.

Lemma keeps_translate_text (env : Env) (text : str) :
  keeps_fs (translate_text env text).
Proof.
  unfold translate_text. destruct (strip text); [apply keeps_ret|].
  destruct (len text >? 4000)%Z; [|apply keeps_translator_translate].
  apply keeps_bind.
  - apply keeps_map_m. apply keeps_translator_translate.
  - intros parts. unfold join_translated.
    destruct (all_str parts); [apply keeps_ret|apply keeps_raise].
Qed.

Lemma keeps_translate_paragraph (env : Env) (text : str) :
  keeps_fs (translate_paragraph env text).
Proof.
  apply keeps_bind; [apply keeps_translate_text|]. intros v. apply keeps_ret.
Qed.

Lemma keeps_translate_document (env : Env) (doc : Document) :
  keeps_fs (translate_document env doc).
Proof.
  apply keeps_bind.
  - apply keeps_map_m. apply keeps_translate_paragraph.
  - intros ps. apply keeps_bind; [|intros ts; apply keeps_ret].
    apply keeps_fold_m. intros s table.
    apply keeps_fold_m. intros s' row.
    apply keeps_fold_m. intros s'' c.
    apply keeps_bind; [|intros texts; apply keeps_ret].
    apply keeps_map_m. apply keeps_translate_paragraph.
Qed.

Lemma keeps_open_document (env : Env) (input_path : path) :
  keeps_fs (open_document env input_path).
Proof.
  intros w. unfold open_document.
  destruct (files w input_path) as [[b|a|d]|]; auto.
Qed.

Lemma keeps_read_file (p : path) : keeps_fs (read_file p).
Proof. intros w. unfold read_file. destruct (files w p); auto. Qed.

Lemma keeps_extractall (input_path : path) : keeps_fs (extractall input_path).
Proof.
  apply keeps_bind; [apply keeps_read_file|].
  intros [b|a|d]; first [apply keeps_ret | apply keeps_raise].
Qed.

Lemma keeps_translate_image (env : Env) (t : archive) (img_file : str) :
  keeps_fs (translate_image env t img_file).
Proof.
  unfold translate_image. destruct (is_raster img_file); [|apply keeps_ret].
  destruct (lookup t _); [|apply keeps_raise].
  apply keeps_bind; [apply keeps_lift|]. intros img_text.
  destruct (strip img_text); [apply keeps_ret|].
  apply keeps_bind; [apply keeps_translate_text|]. intros tr.
  apply keeps_bind; [apply keeps_lift|]. intros b'. apply keeps_ret.
Qed.

Lemma keeps_translate_media (env : Env) (t : archive) :
  keeps_fs (translate_media env t).
Proof.
  unfold translate_media. destruct (tree_exists t media_dir); [|apply keeps_ret].
  destruct (lookup t media_dir); [apply keeps_raise|].
  apply keeps_fold_m. intros. apply keeps_translate_image.
Qed.

(** Writing below a directory that is missing raises and changes nothing. *)
Lemma write_file_missing_parent (p : path) (c : content) (w : World) :
  parent_exists w p = false ->
  exists e, write_file p c w = (Raise e, w).
Proof.
  intros H. unfold write_file. rewrite H.
  destruct (isdir w p); eexists; reflexivity.
Qed.

Lemma parent_exists_ext (w w' : World) (p : path) :
  isdir w' = isdir w -> parent_exists w' p = parent_exists w p.
Proof. intros H. unfold parent_exists. rewrite H. reflexivity. Qed.

(** An action that keeps the file system, followed by one that raises
    without a change whenever the directory of [p] is missing. *)
Lemma raises_after_keeps {A B} (m : M A) (k : A -> M B) (p : path) :
  keeps_fs m ->
  (forall a w, parent_exists w p = false ->
     exists e w1, k a w = (Raise e, w1)
                  /\ files w1 = files w /\ isdir w1 = isdir w) ->
  forall w, parent_exists w p = false ->
    exists e w1, bind m k w = (Raise e, w1)
                 /\ files w1 = files w /\ isdir w1 = isdir w.
Proof.
  intros Hm Hk w Hp. unfold bind. destruct (Hm w) as [F D].
  destruct (m w) as [[a|e] w0]; simpl in *.
  - destruct (Hk a w0) as (e & w1 & E & F1 & D1).
    { rewrite (parent_exists_ext w w0 p D). exact Hp. }
    exists e, w1. rewrite E, F1, D1. auto.
  - exists e, w0. auto.
Qed.

Lemma rezip_missing_parent (env : Env) (input_path output_path : path) :
  forall w, parent_exists w output_path = false ->
    exists e w1, rezip env input_path output_path w = (Raise e, w1)
                 /\ files w1 = files w /\ isdir w1 = isdir w.
Proof.
  unfold rezip.
  apply raises_after_keeps; [apply keeps_extractall|]. intros t.
  apply raises_after_keeps; [apply keeps_translate_media|]. intros t' w Hp.
  destruct (write_file_missing_parent output_path (Zip (walk env t')) w Hp)
    as [e E].
  exists e, w. auto.
Qed.

(** C4. If the directory of [output_path] does not exist, the [try]
    block of [translate_docx] raises before anything is written: the
    files and directories are as before, [translate_docx] returns
    normally and has printed the failure with the input path. *)
Theorem translate_docx_missing_parent (env : Env)
    (input_path output_path : path) (w : World) :
  parent_exists w output_path = false ->
  exists e w1,
    translate_docx_body env input_path output_path w = (Raise e, w1)
    /\ files w1 = files w
    /\ isdir w1 = isdir w
    /\ translate_docx env input_path output_path w
       = (Ok tt, set_stdout (stdout w1 ++ [docx_failure input_path e]) w1).
Proof.
  intros Hp.
  assert (B : exists e w1,
             translate_docx_body env input_path output_path w = (Raise e, w1)
             /\ files w1 = files w /\ isdir w1 = isdir w).
  { revert w Hp. unfold translate_docx_body.
    apply raises_after_keeps; [apply keeps_open_document|]. intros doc.
    apply raises_after_keeps; [apply keeps_translate_document|].
    intros doc' w Hp.
    destruct (rezip_missing_parent env input_path output_path w Hp)
      as (e & w1 & E & F & D).
    exists e, w1. unfold bind. rewrite E. auto. }
  destruct B as (e & w1 & E & F & D). exists e, w1.
  repeat split; try assumption.
  unfold translate_docx. rewrite try_except_print, E. reflexivity.
Qed.

(** ** The extracted tree *)

Lemma str_eqb_eq (a b : str) : str_eqb a b = true <-> a = b.
Proof.
  unfold str_eqb. destruct (list_eq_dec N.eq_dec a b); split; intros;
    try reflexivity; try assumption; try discriminate; contradiction.
Qed.

Lemma rpath_eqb_eq (p q : rpath) : rpath_eqb p q = true <-> p = q.
Proof.
  unfold rpath_eqb. destruct (list_eq_dec (list_eq_dec N.eq_dec) p q);
    split; intros; try reflexivity; try assumption; try discriminate;
    contradiction.
Qed.

Lemma rpath_eqb_refl (p : rpath) : rpath_eqb p p = true.
Proof. apply rpath_eqb_eq. reflexivity. Qed.

Lemma lookup_NoDup (t : archive) (e : rpath * bytes) :
  NoDup (map fst t) -> In e t -> lookup t (fst e) = Some (snd e).
Proof.
  induction t as [|[q c] t IH]; intros Hn Hi; [contradiction|].
  simpl in *. inversion Hn as [|? ? Hq Hn']; subst.
  destruct Hi as [<-|Hi].
  - simpl. rewrite rpath_eqb_refl. reflexivity.
  - destruct (rpath_eqb q (fst e)) eqn:E.
    + apply rpath_eqb_eq in E. subst q. exfalso. apply Hq.
      apply in_map. exact Hi.
    + apply IH; assumption.
Qed.

Lemma Forall2_map_In {A B} (R : A -> B -> Prop) (f : A -> B) (l : list A) :
  (forall x, In x l -> R x (f x)) -> Forall2 R l (map f l).
Proof.
  induction l as [|x l IH]; intros H; simpl; constructor.
  - apply H. left. reflexivity.
  - apply IH. intros y Hy. apply H. right. exact Hy.
Qed.

Lemma Forall2_same_In {A} (R : A -> A -> Prop) (l : list A) :
  (forall x, In x l -> R x x) -> Forall2 R l l.
Proof.
  intros H. rewrite <- (map_id l) at 2. apply Forall2_map_In. exact H.
Qed.

Lemma Forall2_compose {A} (R1 R2 R3 : A -> A -> Prop) (l1 l2 l3 : list A) :
  (forall x y z, R1 x y -> R2 y z -> R3 x z) ->
  Forall2 R1 l1 l2 -> Forall2 R2 l2 l3 -> Forall2 R3 l1 l3.
Proof.
  intros H H1. revert l3. induction H1 as [|x y l1 l2 Hxy _ IH]; intros l3 H2.
  - inversion H2. constructor.
  - inversion H2 as [|? z ? l3' Hyz H2']; subst. constructor; eauto.
Qed.

Lemma Forall2_weaken {A} (R1 R2 : A -> A -> Prop) (l1 l2 : list A) :
  (forall x y, In x l1 -> R1 x y -> R2 x y) ->
  Forall2 R1 l1 l2 -> Forall2 R2 l1 l2.
Proof.
  intros H H1. induction H1 as [|x y l1 l2 Hxy _ IH]; constructor.
  - apply H; [left; reflexivity|exact Hxy].
  - apply IH. intros a b Ha. apply H. right. exact Ha.
Qed.

Lemma part_after_paths (env : Env) (names : list str) (t t' : archive) :
  Forall2 (part_after env names) t t' -> map fst t' = map fst t.
Proof.
  induction 1 as [|e e' t t' [E _] _ IH]; simpl; [reflexivity|].
  rewrite E, IH. reflexivity.
Qed.

Lemma dedup_In (l : list str) (x : str) : In x (dedup l) <-> In x l.
Proof.
  induction l as [|n l IH]; simpl; [tauto|].
  destruct (existsb (str_eqb n) l) eqn:E.
  - rewrite IH. split; [auto|]. intros [<-|H]; [|exact H].
    apply existsb_exists in E. destruct E as (y & Hy & Ey).
    apply str_eqb_eq in Ey. subst y. exact Hy.
  - simpl. rewrite IH. tauto.
Qed.

Lemma dedup_NoDup (l : list str) : NoDup (dedup l).
Proof.
  induction l as [|n l IH]; simpl; [constructor|].
  destruct (existsb (str_eqb n) l) eqn:E; [exact IH|].
  constructor; [|exact IH]. rewrite dedup_In. intros H.
  assert (X : existsb (str_eqb n) l = true).
  { apply existsb_exists. exists n. split; [exact H|].
    apply str_eqb_eq. reflexivity. }
  rewrite X in E. discriminate.
Qed.

Lemma listdir_NoDup (t : archive) (d : rpath) : NoDup (listdir t d).
Proof. apply dedup_NoDup. Qed.

(** The visited names hit exactly the image paths of the tree. *)
Lemma names_hit_listdir (t : archive) (e : rpath * bytes) :
  In e t -> names_hit (listdir t media_dir) (fst e) = image_path (fst e).
Proof.
  intros Hi. destruct (image_path (fst e)) eqn:I.
  - destruct e as [p b]. simpl in *.
    destruct p as [|a [|m [|n [|x p]]]]; try discriminate.
    apply andb_true_iff in I as [I In_]. apply andb_true_iff in I as [Ia Im].
    apply str_eqb_eq in Ia. apply str_eqb_eq in Im. subst a m.
    apply existsb_exists. exists n. split.
    + unfold listdir. apply dedup_In. apply in_flat_map.
      exists ([lit "word"; lit "media"; n], b). split; [exact Hi|].
      left. reflexivity.
    + rewrite In_. rewrite andb_true_r. apply rpath_eqb_eq. reflexivity.
  - destruct (names_hit (listdir t media_dir) (fst e)) eqn:N; [|reflexivity].
    apply existsb_exists in N. destruct N as (n & _ & N).
    apply andb_true_iff in N as [P R]. apply rpath_eqb_eq in P.
    rewrite P in I. simpl in I. rewrite R in I. discriminate.
Qed.

(** ** The loop over the images *)

Lemma bind_ok {A B} (m : M A) (k : A -> M B) (w w' : World) (b : B) :
  bind m k w = (Ok b, w') ->
  exists a w1, m w = (Ok a, w1) /\ k a w1 = (Ok b, w').
Proof.
  unfold bind. destruct (m w) as [[a|e] w1]; [|discriminate].
  intros H. exists a, w1. auto.
Qed.

Lemma names_hit_one (n : str) (p : rpath) :
  names_hit [n] p = rpath_eqb p (media_dir ++ [n]) && is_raster n.
Proof. unfold names_hit. simpl. apply orb_false_r. Qed.

Lemma translate_image_parts (env : Env) (t t' : archive) (n : str)
    (w w' : World) :
  NoDup (map fst t) ->
  translate_image env t n w = (Ok t', w') ->
  Forall2 (part_after env [n]) t t'.
Proof.
  intros Hn. unfold translate_image.
  destruct (is_raster n) eqn:R.
  - destruct (lookup t (media_dir ++ [n])) as [b|] eqn:L; [|discriminate].
    intros H. apply bind_ok in H. destruct H as (txt & w1 & O & H).
    unfold lift in O. injection O as O _.
    assert (Same : forall e, In e t ->
              rpath_eqb (fst e) (media_dir ++ [n]) = true -> snd e = b).
    { intros e Hi E. apply rpath_eqb_eq in E.
      pose proof (lookup_NoDup t e Hn Hi) as L'. rewrite E, L in L'.
      injection L' as L'. symmetry. exact L'. }
    destruct (strip txt) as [|c r] eqn:S.
    + injection H as <- _. apply Forall2_same_In. intros e Hi.
      split; [reflexivity|]. rewrite names_hit_one, R, andb_true_r.
      destruct (rpath_eqb (fst e) (media_dir ++ [n])) eqn:E; [|reflexivity].
      unfold image_rewritten. rewrite (Same e Hi E), O, S. reflexivity.
    + apply bind_ok in H. destruct H as (tr & w2 & T & H).
      apply bind_ok in H. destruct H as (b' & w3 & D & H).
      unfold lift in D. injection D as D _. injection H as <- _.
      unfold overwrite. apply Forall2_map_In. intros e Hi.
      unfold part_after.
      change [lit "word"; lit "media"; n] with (media_dir ++ [n]).
      destruct (rpath_eqb (fst e) (media_dir ++ [n])) eqn:E.
      * rewrite names_hit_one, R, E. simpl. split; [reflexivity|].
        unfold image_rewritten. rewrite (Same e Hi E), O, S.
        exists tr, w1, w2. auto.
      * rewrite names_hit_one, R, E. simpl. auto.
  - intros H. injection H as <- _. apply Forall2_same_In. intros e Hi.
    split; [reflexivity|]. rewrite names_hit_one, R, andb_false_r. reflexivity.
Qed.

Lemma names_hit_fresh (n : str) (names : list str) (p : rpath) :
  ~ In n names -> names_hit [n] p = true -> names_hit names p = false.
Proof.
  intros Hn H. rewrite names_hit_one in H.
  apply andb_true_iff in H as [E _]. apply rpath_eqb_eq in E. subst p.
  destruct (names_hit names (media_dir ++ [n])) eqn:N; [|reflexivity].
  apply existsb_exists in N. destruct N as (m & Hm & N).
  apply andb_true_iff in N as [E _]. apply rpath_eqb_eq in E.
  apply app_inj_tail in E. destruct E as [_ E]. subst m. contradiction.
Qed.

Lemma part_after_step (env : Env) (n : str) (names : list str)
    (x y z : rpath * bytes) :
  ~ In n names ->
  part_after env [n] x y -> part_after env names y z ->
  part_after env (n :: names) x z.
Proof.
  intros Hn [E1 R1] [E2 R2]. split; [congruence|].
  rewrite E1 in R2.
  change (names_hit (n :: names) (fst x))
    with ((rpath_eqb (fst x) (media_dir ++ [n]) && is_raster n)
          || names_hit names (fst x)).
  rewrite names_hit_one in R1.
  destruct (rpath_eqb (fst x) (media_dir ++ [n]) && is_raster n) eqn:H; simpl.
  - rewrite (names_hit_fresh n names (fst x) Hn) in R2
      by (rewrite names_hit_one; exact H).
    rewrite R2. exact R1.
  - rewrite R1 in R2. exact R2.
Qed.

Lemma translate_images_parts (env : Env) (names : list str) :
  NoDup names ->
  forall (t t' : archive) (w w' : World),
    NoDup (map fst t) ->
    fold_m (translate_image env) names t w = (Ok t', w') ->
    Forall2 (part_after env names) t t'.
Proof.
  induction 1 as [|n names Hn _ IH]; intros t t' w w' Ht H.
  - injection H as <- _. apply Forall2_same_In. intros e _.
    split; reflexivity.
  - simpl in H. apply bind_ok in H. destruct H as (t1 & w1 & S & H).
    pose proof (translate_image_parts env t n w Ht S) as P1.
    assert (Ht1 : NoDup (map fst t1))
      by (rewrite (part_after_paths P1); exact Ht).
    pose proof (IH t1 t' w1 w' Ht1 H) as P2.
    eapply Forall2_compose; [|exact P1|exact P2].
    intros x y z. apply part_after_step. exact Hn.
Qed.

Lemma translate_media_parts (env : Env) (t t' : archive) (w w' : World) :
  NoDup (map fst t) ->
  translate_media env t w = (Ok t', w') ->
  Forall2 (part_rewritten env) t t'.
Proof.
  intros Ht H.
  assert (P : Forall2 (part_after env (listdir t media_dir)) t t').
  { unfold translate_media in H.
    destruct (tree_exists t media_dir) eqn:X.
    - destruct (lookup t media_dir); [discriminate|].
      apply (translate_images_parts env (listdir_NoDup t media_dir) t w Ht H).
    - injection H as <- _. apply Forall2_same_In. intros e _.
      unfold tree_exists in X.
      destruct (lookup t media_dir); [discriminate|].
      destruct (listdir t media_dir); [|discriminate].
      split; reflexivity. }
  eapply Forall2_weaken; [|exact P].
  intros x y Hx [E R]. split; [exact E|].
  rewrite <- (names_hit_listdir t x Hx). exact R.
Qed.

(** ** Claims about the archive-based rewriter *)

Lemma makedirs_files (name : path) (w w' : World) (r : result unit) :
  makedirs name w = (r, w') -> files w' = files w.
Proof.
  unfold makedirs. destruct name; [intros [= _ <-]; reflexivity|].
  destruct (files w _); intros [= _ <-]; reflexivity.
Qed.

Lemma write_file_ok (p : path) (c : content) (w w' : World) (u : unit) :
  write_file p c w = (Ok u, w') -> files w' p = Some c.
Proof.
  unfold write_file. destruct (isdir w p); [discriminate|].
  destruct (parent_exists w p); [|discriminate].
  intros [= _ <-]. simpl.
  assert (E : str_eqb p p = true) by (apply str_eqb_eq; reflexivity).
  rewrite E. reflexivity.
Qed.

(** The walk yields every file of the tree once. *)
Lemma insert_by_perm (rank : rpath -> nat) (e : rpath * bytes) (l : archive) :
  Permutation (e :: l) (insert_by rank e l).
Proof.
  induction l as [|x l IH]; simpl; [apply Permutation_refl|].
  destruct (rank (fst e) <=? rank (fst x))%nat; [apply Permutation_refl|].
  eapply perm_trans; [apply perm_swap|]. apply perm_skip. exact IH.
Qed.

Lemma walk_perm (env : Env) (t : archive) : Permutation t (walk env t).
Proof.
  unfold walk. generalize (walk_rank env t). intros rank.
  induction t as [|e t IH]; simpl; [apply Permutation_refl|].
  eapply perm_trans; [apply perm_skip; exact IH|]. apply insert_by_perm.
Qed.

(** Looking a path up does not depend on the order of the entries when
    each path is listed once. *)
Lemma lookup_perm (l l' : archive) (p : rpath) :
  Permutation l l' -> NoDup (map fst l) -> lookup l' p = lookup l p.
Proof.
  induction 1 as [|x l l' _ IH|x y l|l l1 l2 P1 IH1 P2 IH2]; intros Hn.
  - reflexivity.
  - destruct x as [q b]. simpl in *. inversion Hn; subst.
    destruct (rpath_eqb q p); [reflexivity|]. apply IH. assumption.
  - destruct x as [q b], y as [q' b']. simpl in *.
    destruct (rpath_eqb q p) eqn:E, (rpath_eqb q' p) eqn:E'; try reflexivity.
    apply rpath_eqb_eq in E. apply rpath_eqb_eq in E'. subst q q'.
    inversion Hn as [|? ? Hin _]; subst. exfalso. apply Hin. left. reflexivity.
  - rewrite IH2, IH1; [reflexivity|exact Hn|].
    apply (Permutation_NoDup (Permutation_map fst P1) Hn).
Qed.

(** What a successful run of the [try] block has written. *)
Lemma translate_docx_body_ok (env : Env) (input_path output_path : path)
    (w w' : World) (a : archive) :
  files w input_path = Some (Zip a) ->
  translate_docx_body env input_path output_path w = (Ok tt, w') ->
  exists t' w1 w2,
    translate_media env a w1 = (Ok t', w2)
    /\ files w' output_path = Some (Zip (walk env t')).
Proof.
  intros Hf H. unfold translate_docx_body in H.
  apply bind_ok in H. destruct H as (doc & w1 & H1 & H).
  apply bind_ok in H. destruct H as (doc' & w2 & H2 & H).
  apply bind_ok in H. destruct H as ([] & w3 & H3 & H4).
  unfold rezip in H3.
  apply bind_ok in H3. destruct H3 as (t & w4 & X & H3).
  apply bind_ok in H3. destruct H3 as (t' & w5 & Tm & Wr).
  assert (F2 : files w2 = files w).
  { destruct (keeps_open_document env input_path w) as [F _].
    destruct (keeps_translate_document env doc w1) as [F' _].
    rewrite H1 in F. rewrite H2 in F'. simpl in *. congruence. }
  assert (Et : t = a /\ w4 = w2).
  { unfold extractall, bind, read_file in X. rewrite F2, Hf in X.
    injection X as -> ->. auto. }
  destruct Et as [-> ->].
  exists t', w2, w5. split; [exact Tm|].
  rewrite (makedirs_files _ _ H4). apply (write_file_ok _ _ _ Wr).
Qed.




Lemma part_rewritten_paths (env : Env) (a out : archive) :
  Forall2 (part_rewritten env) a out -> map fst out = map fst a.
Proof.
  induction 1 as [|e e' t t' [E _] _ IH]; simpl; [reflexivity|].
  rewrite E, IH. reflexivity.
Qed.

(** The parts that are not images pass through a successful rewrite
    untouched, the document part among them. *)
Lemma part_rewritten_lookup (env : Env) (a out : archive) (p : rpath) :
  Forall2 (part_rewritten env) a out ->
  image_path p = false ->
  lookup out p = lookup a p.
Proof.
  intros F Hp. induction F as [|[q b] [q' b'] a out [E R] _ IH]; [reflexivity|].
  simpl in *. subst q'. destruct (rpath_eqb q p) eqn:Q; [|exact IH].
  apply rpath_eqb_eq in Q. subst q. rewrite Hp in R. rewrite R. reflexivity.
Qed.

Lemma translate_docx_keeps_document_part (env : Env)
    (input_path output_path : path) (w w' : World) (a : archive) :
  files w input_path = Some (Zip a) ->
  NoDup (map fst a) ->
  translate_docx_body env input_path output_path w = (Ok tt, w') ->
  exists out,
    files w' output_path = Some (Zip out)
    /\ lookup out document_xml = lookup a document_xml.
Proof.
  intros Hf Hn H.
  destruct (translate_docx_body_ok env input_path output_path w Hf H)
    as (t' & w1 & w2 & Tm & Fo).
  pose proof (translate_media_parts env a w1 Hn Tm) as P.
  exists (walk env t'). split; [exact Fo|].
  rewrite (lookup_perm document_xml (walk_perm env t')).
  - apply (part_rewritten_lookup document_xml P). reflexivity.
  - rewrite (part_rewritten_paths P). exact Hn.
Qed.

(** C1. On a document whose only paragraph reads "Good morning", with a
    backend that translates it to "Bom dia": the paragraph is sent to the
    backend and the document object is changed in memory, no failure is
    printed, and the archive written to [output_path] has the document
    part of the input, byte for byte; it still reads "Good morning". The
    translated document object is never saved. *)
Theorem translate_docx_drops_text :
  let input_path := lit "translate/a.docx" in
  let output_path := lit "Portuguese/a.docx" in
  let doc := {| paragraphs := [lit "Good morning"]; tables := [] |} in
  let w' := snd (translate_docx docx_env input_path output_path docx_world) in
  open_document docx_env input_path docx_world = (Ok doc, docx_world)
  /\ fst (translate_document docx_env doc docx_world)
     = Ok {| paragraphs := [lit "Bom dia"]; tables := [] |}
  /\ stdout w' = []
  /\ requests w' = [lit "Good morning"; lit "Good morning"]
  /\ exists out,
       files w' output_path = Some (Zip out)
       /\ lookup out document_xml = Some (utf8 "Good morning")
       /\ parse_docx docx_env out = Ok doc.
Proof.
  cbv zeta. split; [reflexivity|]. split; [vm_compute; reflexivity|].
  split; [vm_compute; reflexivity|]. split; [vm_compute; reflexivity|].
  eexists. split; [vm_compute; reflexivity|].
  split; vm_compute; reflexivity.
Qed.

Lemma translate_docx_missing_parent_witness :
  exists e w1,
    translate_docx_body docx_env (lit "translate/a.docx")
      (lit "Portuguese/a.docx") docx_world_bare = (Raise e, w1)
    /\ files w1 = files docx_world_bare
    /\ isdir w1 = isdir docx_world_bare
    /\ translate_docx docx_env (lit "translate/a.docx")
         (lit "Portuguese/a.docx") docx_world_bare
       = (Ok tt,
          set_stdout
            (stdout w1 ++ [docx_failure (lit "translate/a.docx") e]) w1).
Proof.
  apply (@translate_docx_missing_parent docx_env (lit "translate/a.docx")
           (lit "Portuguese/a.docx") docx_world_bare).
  vm_compute. reflexivity.
Defined.

(** ** Claims about the page-description rewriter *)

Lemma fold_m_inv {A S} (P : S -> Prop) (body : S -> A -> M S) (xs : list A) :
  (forall s x w s' w', P s -> body s x w = (Ok s', w') -> P s') ->
  forall s w s' w', P s -> fold_m body xs s w = (Ok s', w') -> P s'.
Proof.
  intros Hb. induction xs as [|x xs IH]; intros s w s' w' Hs H; simpl in H.
  - injection H as <- _. exact Hs.
  - apply bind_ok in H. destruct H as (s1 & w1 & H1 & H).
    apply (IH s1 w1 s' w'); [|exact H]. apply (Hb s x w s1 w1); assumption.
Qed.

Lemma drawn_in_layer_refl (xref : Z) (d : PdfDoc) : drawn_in_layer xref d d.
Proof.
  split; [reflexivity|]. exists []. rewrite app_nil_r. split; constructor.
Qed.

Lemma drawn_in_layer_add (xref : Z) (d0 d : PdfDoc) (o : DrawOp) :
  op_oc o = xref -> drawn_in_layer xref d0 d ->
  drawn_in_layer xref d0 (add_op d o).
Proof.
  intros Ho [Eg (new & Eo & F)]. split; [exact Eg|].
  exists (new ++ [o]). simpl. rewrite Eo, <- app_assoc. split; [reflexivity|].
  apply Forall_app. split; [exact F|]. constructor; [exact Ho|constructor].
Qed.

Lemma translate_block_layer (env : Env) (xref : Z) (pno : nat)
    (d0 d d' : PdfDoc) (block : Block) (w w' : World) :
  drawn_in_layer xref d0 d ->
  translate_block env xref pno d block w = (Ok d', w') ->
  drawn_in_layer xref d0 d'.
Proof.
  intros Hd. unfold translate_block.
  destruct (block_text block) as [original_text|].
  - intros H. apply bind_ok in H. destruct H as (tr & w1 & _ & H).
    destruct (htmlbox_error env _ _); [discriminate|].
    injection H as <- _.
    apply drawn_in_layer_add; [reflexivity|].
    apply drawn_in_layer_add; [reflexivity|exact Hd].
  - intros H. injection H as <- _. exact Hd.
Qed.

Lemma translate_page_layer (env : Env) (xref : Z) (d0 d d' : PdfDoc)
    (pno : nat) (w w' : World) :
  drawn_in_layer xref d0 d ->
  translate_page env xref d pno w = (Ok d', w') ->
  drawn_in_layer xref d0 d'.
Proof.
  unfold translate_page. apply fold_m_inv.
  intros s x w0 s' w0'. apply translate_block_layer.
Qed.

(** C10, as stated, fails: the layer has the same name in every run.
    Two runs on two different documents, one after the other, both
    create a layer named "Portuguese". *)
Lemma translate_pdf_layer_name_repeats :
  ~ (forall (env : Env) (w w1 w2 : World) (i1 i2 : path) (d1 d2 : PdfDoc),
       i1 <> i2 ->
       translate_pdf_doc env i1 w = (Ok d1, w1) ->
       translate_pdf_doc env i2 w1 = (Ok d2, w2) ->
       option_map ocg_name (created_layer d1)
       <> option_map ocg_name (created_layer d2)).
Proof.
  intros H.
  set (box := {| x0 := 72; y0 := 72; x1 := 300; y1 := 90 |}).
  set (d1 := {| pdf_base := utf8 "a"; pdf_page_count := 1;
                pdf_ocgs := [ {| ocg_xref := 10; ocg_name := lit "Portuguese";
                                 ocg_on := true |} ];
                pdf_ops := [ draw_rect 0 box WHITE 10;
                             insert_htmlbox 0 box (lit "Bom dia") 10 ];
                pdf_xref_length := 11 |}).
  set (d2 := {| pdf_base := utf8 "b"; pdf_page_count := 1;
                pdf_ocgs := [ {| ocg_xref := 7; ocg_name := lit "Notes";
                                 ocg_on := true |};
                              {| ocg_xref := 12; ocg_name := lit "Portuguese";
                                 ocg_on := true |} ];
                pdf_ops := [ draw_rect 0 box WHITE 12;
                             insert_htmlbox 0 box (lit "Bom dia") 12 ];
                pdf_xref_length := 13 |}).
  set (w1 := snd (translate_pdf_doc pdf_env (lit "translate/a.pdf") pdf_world)).
  apply (H pdf_env pdf_world w1
           (snd (translate_pdf_doc pdf_env (lit "translate/b.pdf") w1))
           (lit "translate/a.pdf") (lit "translate/b.pdf") d1 d2).
  - vm_compute. discriminate.
  - apply injective_projections; [vm_compute; reflexivity|reflexivity].
  - apply injective_projections; [vm_compute; reflexivity|reflexivity].
  - reflexivity.
Qed.

Lemma translate_pdf_doc_layer (env : Env) (input_path : path)
    (w w1 : World) (d d' : PdfDoc) :
  files w input_path = Some (Pdf d) ->
  translate_pdf_doc env input_path w = (Ok d', w1) ->
  drawn_in_layer (pdf_xref_length d) (snd (add_ocg d layer_name true)) d'.
Proof.
  intros Hf H. unfold translate_pdf_doc in H.
  apply bind_ok in H. destruct H as (doc & w0 & Ho & H).
  unfold pymupdf_open in Ho. rewrite Hf in Ho. injection Ho as <- <-.
  simpl in H. revert H. apply fold_m_inv; [|apply drawn_in_layer_refl].
  intros s x w2 s' w2'. apply translate_page_layer.
Qed.

(** C10, amended. When the [try] block of [translate_pdf] succeeds, the
    document in memory that it hands to the save has the layers of the
    input and one more, named "Portuguese" in every run and switched
    on; what the run has drawn, rectangles and translations alike, is
    in that layer. The file at [output_path] is what [ez_save] writes
    for this document. *)
Theorem translate_pdf_layer (env : Env) (input_path output_path : path)
    (w w' : World) (d : PdfDoc) :
  files w input_path = Some (Pdf d) ->
  translate_pdf_body env input_path output_path w = (Ok tt, w') ->
  exists d' new w1,
    translate_pdf_doc env input_path w = (Ok d', w1)
    /\ pdf_ocgs d'
       = pdf_ocgs d ++ [ {| ocg_xref := pdf_xref_length d;
                            ocg_name := lit "Portuguese";
                            ocg_on := true |} ]
    /\ pdf_ops d' = pdf_ops d ++ new
    /\ Forall (fun o => op_oc o = pdf_xref_length d) new
    /\ files w' output_path = Some (Pdf (ez_saved env d')).
Proof.
  intros Hf H. unfold translate_pdf_body in H.
  apply bind_ok in H. destruct H as (d' & w1 & Hd & H).
  apply bind_ok in H. destruct H as ([] & w3 & Hm & Hs).
  destruct (translate_pdf_doc_layer env input_path w Hf Hd)
    as [Eg (new & Eo & F)].
  exists d', new, w1. split; [exact Hd|].
  split; [exact Eg|]. split; [exact Eo|]. split; [exact F|].
  unfold ez_save in Hs.
  destruct (str_eqb output_path input_path); [discriminate|].
  apply (write_file_ok _ _ _ Hs).
Qed.

Lemma translate_pdf_layer_witness :
  exists d' new w1,
    translate_pdf_doc pdf_env (lit "translate/a.pdf") pdf_world = (Ok d', w1)
    /\ pdf_ocgs d'
       = pdf_ocgs pdf_a ++ [ {| ocg_xref := pdf_xref_length pdf_a;
                                ocg_name := lit "Portuguese";
                                ocg_on := true |} ]
    /\ pdf_ops d' = pdf_ops pdf_a ++ new
    /\ Forall (fun o => op_oc o = pdf_xref_length pdf_a) new
    /\ files (snd (translate_pdf_body pdf_env (lit "translate/a.pdf")
                     (lit "Portuguese/a.pdf") pdf_world))
         (lit "Portuguese/a.pdf")
       = Some (Pdf (ez_saved pdf_env d')).
Proof.
  apply (@translate_pdf_layer pdf_env (lit "translate/a.pdf")
           (lit "Portuguese/a.pdf") pdf_world).
  - vm_compute. reflexivity.
  - apply injective_projections; [vm_compute; reflexivity|reflexivity].
Defined.

(** The dispatcher on failing collaborators: a backend that raises in
    the archive-based rewriter, and a missing converter in the bridge. *)
Example process_file_backend_failure :
  let r := process_file failing_env (lit "translate/a.docx")
             (lit "Portuguese/a.docx") (lit ".docx") docx_world in
  fst r = Ok tt
  /\ stdout (snd r)
     = [lit "Failed to translate DOCX translate/a.docx: quota exceeded. Skipping."]
  /\ files (snd r) (lit "Portuguese/a.docx") = None.
Proof. cbv zeta. repeat split; vm_compute; reflexivity. Qed.

Example process_file_converter_missing :
  let r := process_file failing_env (lit "translate/a.rtf")
             (lit "Portuguese/a.rtf") (lit ".rtf") docx_world in
  fst r = Ok tt
  /\ stdout (snd r)
     = [lit "Failed to process .RTF file translate/a.rtf: Pandoc not found. Install it via 'brew install pandoc' on macOS.. Skipping. Install Pandoc if not already."]
  /\ spawned (snd r)
     = [[lit "pandoc"; lit "translate/a.rtf"; lit "-o"; lit "/tmp/tmpdir/a.docx"]].
Proof. cbv zeta. repeat split; vm_compute; reflexivity. Qed.

(** * Further properties of the code *)

(** ** chunk_text: what the chunks look like *)

Lemma lstrip_fixed_app (u v : str) :
  lstrip u = u -> u <> [] -> lstrip (u ++ v) = u ++ v.
Proof.
  destruct u as [|c u]; [contradiction|]. simpl. intros H _.
  destruct (isspace c); [|reflexivity].
  exfalso. pose proof (lstrip_length u) as L. rewrite H in L. simpl in L. lia.
Qed.

Lemma word_lstrip (w : str) : word w -> lstrip w = w.
Proof.
  intros [Hne Hw]. destruct w as [|c w]; [contradiction|].
  unfold nospace in Hw. simpl in *. apply andb_true_iff in Hw as [Hc _].
  apply negb_true_iff in Hc. rewrite Hc. reflexivity.
Qed.

Lemma word_rev (w : str) : word w -> word (rev w).
Proof.
  intros [Hne Hw]. split.
  - intros E. apply Hne. rewrite <- (rev_involutive w), E. reflexivity.
  - unfold nospace in *. rewrite forallb_forall in *. intros x Hx.
    apply Hw. apply in_rev. exact Hx.
Qed.

Lemma word_rstrip (w : str) : word w -> rstrip w = w.
Proof.
  intros H. unfold rstrip. rewrite (word_lstrip (word_rev H)).
  apply rev_involutive.
Qed.

Lemma rstrip_fixed_app (a b : str) :
  rstrip b = b -> b <> [] -> rstrip (a ++ b) = a ++ b.
Proof.
  unfold rstrip. intros H Hne.
  assert (H' : lstrip (rev b) = rev b).
  { rewrite <- (rev_involutive (lstrip (rev b))), H. reflexivity. }
  rewrite rev_app_distr, lstrip_fixed_app; [|exact H'|].
  - rewrite <- rev_app_distr. apply rev_involutive.
  - intros E. apply Hne. rewrite <- (rev_involutive b), E. reflexivity.
Qed.

Lemma join_cons2 (sep w w' : str) (ws : list str) :
  Py.join sep (w :: w' :: ws) = w ++ sep ++ Py.join sep (w' :: ws).
Proof. reflexivity. Qed.

(** The words joined by single spaces start and end with a character
    that is not whitespace. *)
Lemma join_words_fixed (ws : list str) :
  Forall word ws -> ws <> [] ->
  Py.join [space] ws <> []
  /\ lstrip (Py.join [space] ws) = Py.join [space] ws
  /\ rstrip (Py.join [space] ws) = Py.join [space] ws.
Proof.
  induction 1 as [|w ws Hw Hws IH]; intros Hne; [contradiction|].
  destruct ws as [|w' ws].
  - simpl. destruct Hw as [Hn Hs]. split; [exact Hn|].
    split; [apply word_lstrip|apply word_rstrip]; split; assumption.
  - destruct IH as (Jn & Jl & Jr); [discriminate|].
    rewrite join_cons2. split; [|split].
    + destruct Hw as [Hn _]. destruct w; [contradiction|discriminate].
    + apply lstrip_fixed_app; [apply word_lstrip; exact Hw|apply Hw].
    + rewrite app_assoc. apply rstrip_fixed_app; assumption.
Qed.

Lemma spaced_join (ws : list str) :
  ws <> [] -> spaced ws = Py.join [space] ws ++ [space].
Proof.
  induction ws as [|w ws IH]; intros Hne; [contradiction|].
  rewrite spaced_cons. destruct ws as [|w' ws].
  - simpl. reflexivity.
  - rewrite IH by discriminate. rewrite join_cons2, <- !app_assoc. reflexivity.
Qed.

(** A flushed buffer is its words joined by single spaces. *)
Lemma strip_spaced (ws : list str) :
  Forall word ws -> strip (spaced ws) = Py.join [space] ws.
Proof.
  intros H. destruct ws as [|w ws]; [reflexivity|].
  destruct (join_words_fixed H) as (_ & Jl & Jr); [discriminate|].
  rewrite spaced_join by discriminate. unfold strip.
  rewrite rstrip_snoc_space, Jr, Jl. reflexivity.
Qed.

Lemma strip_spaced_normal (ws : list str) :
  Forall word ws ->
  strip (spaced ws) = Py.join [space] (split (strip (spaced ws))).
Proof.
  intros H. rewrite split_strip_spaced by exact H. apply strip_spaced. exact H.
Qed.

Lemma strip_spaced_nonempty (ws : list str) :
  Forall word ws -> ws <> [] -> strip (spaced ws) <> [].
Proof.
  intros H Hne. rewrite strip_spaced by exact H.
  apply (join_words_fixed H Hne).
Qed.

(** The chunks the loop adds: each is its own words joined by single
    spaces, and none is empty once the buffer holds a word. *)
Lemma chunk_loop_flushes (max_len : Z) (ws : list str) :
  Forall word ws ->
  forall chunks pend, Forall word pend ->
  exists more pend',
    fold_left (chunk_step max_len) ws (chunks, spaced pend)
      = (chunks ++ more, spaced pend')
    /\ Forall word pend'
    /\ Forall (fun c => c = Py.join [space] (split c)) more
    /\ (pend <> [] -> Forall (fun c => c <> []) more)
    /\ (pend <> [] \/ ws <> [] -> pend' <> []).
Proof.
  induction 1 as [|w ws Hw Hws IH]; intros chunks pend Hp.
  - exists [], pend. rewrite app_nil_r. repeat split; auto.
    intros [H|H]; [exact H|contradiction].
  - simpl. destruct (len (spaced pend) + len w + 1 >? max_len)%Z.
    + destruct (IH (chunks ++ [strip (spaced pend)]) [w])
        as (more & pend' & E & Hp' & Hn & Hne & Hlast).
      { constructor; [exact Hw|constructor]. }
      exists (strip (spaced pend) :: more), pend'.
      unfold spaced at 2 in E. simpl in E. rewrite app_nil_r in E.
      rewrite <- app_assoc in E. split; [exact E|]. split; [exact Hp'|].
      split; [|split].
      * constructor; [apply strip_spaced_normal; exact Hp|exact Hn].
      * intros Hpe. constructor; [apply strip_spaced_nonempty; assumption|].
        apply Hne. discriminate.
      * intros _. apply Hlast. left. discriminate.
    + destruct (IH chunks (pend ++ [w]))
        as (more & pend' & E & Hp' & Hn & Hne & Hlast).
      { apply Forall_app. split; [exact Hp|]. constructor; [exact Hw|constructor]. }
      exists more, pend'. rewrite spaced_snoc in E.
      split; [exact E|]. split; [exact Hp'|]. split; [exact Hn|]. split.
      * intros _. apply Hne. destruct pend; discriminate.
      * intros _. apply Hlast. left. destruct pend; discriminate.
Qed.

Lemma chunk_loop_first (max_len : Z) (w : str) (ws : list str) :
  fold_left (chunk_step max_len) (w :: ws) (@pair (list str) str [] [])
  = fold_left (chunk_step max_len) ws
      (if (len w + 1 >? max_len)%Z
       then @pair (list str) str [[]] (spaced [w])
       else @pair (list str) str [] (spaced [w])).
Proof.
  simpl. change (len [] + len w + 1)%Z with (len w + 1)%Z.
  unfold spaced. simpl. rewrite app_nil_r.
  destruct (len w + 1 >? max_len)%Z; reflexivity.
Qed.

(** What [chunk_text] returns, by the first word of the text. *)
Lemma chunk_text_cases (text : str) (max_len : Z) :
  match split text with
  | [] => chunk_text text max_len = []
  | w :: _ =>
      exists first rest,
        chunk_text text max_len = first ++ rest
        /\ first = (if (len w + 1 >? max_len)%Z then [[]] else [])
        /\ rest <> []
        /\ Forall (fun c => c <> []) rest
        /\ Forall (fun c => c = Py.join [space] (split c)) rest
  end.
Proof.
  unfold chunk_text. pose proof (split_words text) as Hws.
  destruct (split text) as [|w ws]; [reflexivity|].
  inversion Hws as [|? ? Hw Hws']; subst.
  rewrite chunk_loop_first.
  assert (W1 : Forall word [w]) by (constructor; [exact Hw|constructor]).
  destruct (len w + 1 >? max_len)%Z.
  - destruct (chunk_loop_flushes max_len Hws' [[]] W1)
      as (more & pend' & E & Hp' & Hn & Hne & Hlast).
    rewrite E.
    assert (P : pend' <> []) by (apply Hlast; left; discriminate).
    exists [[]], (more ++ [strip (spaced pend')]).
    destruct (spaced pend') as [|c r] eqn:Es;
      [apply spaced_nil_inv in Es; contradiction|]. rewrite <- Es.
    split; [rewrite <- app_assoc; reflexivity|]. split; [reflexivity|].
    split; [destruct more; discriminate|]. split.
    + apply Forall_app. split; [apply Hne; discriminate|].
      constructor; [apply strip_spaced_nonempty; assumption|constructor].
    + apply Forall_app. split; [exact Hn|].
      constructor; [apply strip_spaced_normal; exact Hp'|constructor].
  - destruct (chunk_loop_flushes max_len Hws' [] W1)
      as (more & pend' & E & Hp' & Hn & Hne & Hlast).
    rewrite E.
    assert (P : pend' <> []) by (apply Hlast; left; discriminate).
    exists [], (more ++ [strip (spaced pend')]).
    destruct (spaced pend') as [|c r] eqn:Es;
      [apply spaced_nil_inv in Es; contradiction|]. rewrite <- Es.
    split; [reflexivity|]. split; [reflexivity|].
    split; [destruct more; discriminate|]. split.
    + apply Forall_app. split; [apply Hne; discriminate|].
      constructor; [apply strip_spaced_nonempty; assumption|constructor].
    + apply Forall_app. split; [exact Hn|].
      constructor; [apply strip_spaced_normal; exact Hp'|constructor].
Qed.

Lemma chunk_text_nonempty (text : str) (max_len : Z) :
  split text <> [] -> chunk_text text max_len <> [].
Proof.
  intros Hne. pose proof (chunk_text_cases text max_len) as C.
  destruct (split text) as [|w ws]; [contradiction|].
  destruct C as (first & rest & E & _ & Hr & _). intros H.
  rewrite H in E. symmetry in E. apply app_eq_nil in E.
  destruct E as [_ E]. contradiction.
Qed.

(** X1. [chunk_text] returns no chunk exactly for a text without words
    (empty or whitespace only), whatever the limit. *)
Theorem chunk_text_nil_iff (text : str) (max_len : Z) :
  chunk_text text max_len = [] <-> strip text = [].
Proof.
  rewrite strip_nil_split. pose proof (chunk_text_cases text max_len) as C.
  destruct (split text) as [|w ws].
  - split; auto.
  - destruct C as (first & rest & E & _ & Hne & _). split; [|discriminate].
    intros H. rewrite H in E. symmetry in E.
    apply app_eq_nil in E. destruct E as [_ E]. contradiction.
Qed.

(** X2. Every chunk is its own words joined by single spaces: a chunk
    has no leading or trailing whitespace, and whatever whitespace
    separated two words in the text is one space in the chunk. *)
Theorem chunk_text_normalised (text : str) (max_len : Z) :
  Forall (fun c => c = Py.join [space] (split c)) (chunk_text text max_len).
Proof.
  pose proof (chunk_text_cases text max_len) as C.
  destruct (split text) as [|w ws].
  - rewrite C. constructor.
  - destruct C as (first & rest & -> & -> & _ & _ & Hn).
    apply Forall_app. split; [|exact Hn].
    destruct (len w + 1 >? max_len)%Z; repeat constructor.
Qed.

(** X3. Only the first chunk can be the empty string, and it is exactly
    when the first word and its space do not fit the limit: then the
    empty buffer is flushed before the word is taken. *)
Theorem chunk_text_empty_chunk (text : str) (max_len : Z) :
  Forall (fun c => c <> []) (tl (chunk_text text max_len))
  /\ (hd_error (chunk_text text max_len) = Some []
      <-> exists w ws, split text = w :: ws /\ (len w + 1 > max_len)%Z).
Proof.
  pose proof (chunk_text_cases text max_len) as C.
  destruct (split text) as [|w ws].
  - rewrite C. split; [constructor|]. split; [discriminate|].
    intros (w & ws & E & _). discriminate.
  - destruct C as (first & rest & -> & -> & Hne & Hr & _).
    destruct (len w + 1 >? max_len)%Z eqn:T.
    + simpl. split; [exact Hr|]. split; [|reflexivity].
      intros _. exists w, ws. split; [reflexivity|]. test_true T. lia.
    + simpl. destruct rest as [|c rest]; [contradiction|].
      inversion Hr as [|? ? Hc Hrest]; subst. simpl.
      split; [exact Hrest|]. split.
      * intros [= E]. contradiction.
      * intros (w' & ws' & [= <- <-] & G). test_false T. lia.
Qed.

(** X4. A text whose words, each followed by one space, fit the limit
    gives exactly one chunk: its words joined by single spaces. *)
Theorem chunk_text_single (text : str) (max_len : Z) :
  split text <> [] ->
  (len (spaced (split text)) <= max_len)%Z ->
  chunk_text text max_len = [Py.join [space] (split text)].
Proof.
  intros Hne Hl. unfold chunk_text.
  pose proof (chunk_loop_count max_len (split text) [] []) as C.
  cbv zeta in C.
  destruct (fold_left (chunk_step max_len) (split text) _)
    as [chunks current].
  destruct C as (_ & N & Eq & G). simpl in *.
  destruct chunks as [|c chunks]; [|exfalso; simpl in G; lia].
  destruct Eq as [-> _]; [reflexivity|].
  rewrite strip_spaced by apply split_words.
  destruct (spaced (split text)) eqn:Es; [|reflexivity].
  apply spaced_nil_inv in Es. contradiction.
Qed.

Lemma chunk_text_single_witness :
  chunk_text (lit "  good   morning ") 13 = [lit "good morning"].
Proof.
  apply (@chunk_text_single (lit "  good   morning ") 13).
  - vm_compute. discriminate.
  - vm_compute. discriminate.
Defined.

(** ** translate_text: what reaches the backend *)

Lemma map_m_translate_cons (env : Env) (c : str) (chunks : list str)
    (w : World) :
  map_m (translator_translate env) (c :: chunks) w
  = match backend env (requests w) c with
    | Ok r =>
        match map_m (translator_translate env) chunks
                (set_requests (requests w ++ [c]) w) with
        | (Ok rs, w') => (Ok (r :: rs), w')
        | (Raise e, w') => (Raise e, w')
        end
    | Raise e => (Raise e, set_requests (requests w ++ [c]) w)
    end.
Proof.
  simpl. unfold bind at 1. unfold translator_translate at 1.
  destruct (backend env (requests w) c) as [r|e]; [|reflexivity].
  unfold bind at 1.
  destruct (map_m (translator_translate env) chunks _) as [[rs|e] w'];
    reflexivity.
Qed.

(** The comprehension sends the chunks in order and stops after the
    first one on which the backend raises. *)
Lemma map_m_translate_prefix (env : Env) (chunks : list str) :
  forall w,
  exists k,
    (k <= length chunks)%nat
    /\ (chunks <> [] -> 1 <= k)%nat
    /\ requests (snd (map_m (translator_translate env) chunks w))
       = requests w ++ firstn k chunks
    /\ ((k < length chunks)%nat ->
        exists e, fst (map_m (translator_translate env) chunks w) = Raise e).
Proof.
  induction chunks as [|c chunks IH]; intros w.
  - exists 0%nat. simpl. rewrite app_nil_r. repeat split; auto; try lia.
    intros H. contradiction.
  - rewrite map_m_translate_cons.
    destruct (backend env (requests w) c) as [r|e].
    + destruct (IH (set_requests (requests w ++ [c]) w))
        as (k & Hk & _ & R & F).
      exists (S k).
      destruct (map_m (translator_translate env) chunks
                  (set_requests (requests w ++ [c]) w)) as [[rs|e] w'];
        simpl in *.
      * split; [lia|]. split; [lia|].
        split; [rewrite R, <- app_assoc; reflexivity|].
        intros H. destruct F as [e F]; [lia|]. discriminate.
      * split; [lia|]. split; [lia|].
        split; [rewrite R, <- app_assoc; reflexivity|].
        intros _. exists e. reflexivity.
    + exists 1%nat. simpl. split; [lia|]. split; [lia|].
      split; [reflexivity|]. intros _. exists e. reflexivity.
Qed.

(** X5. For a text longer than 4000 characters that is not blank,
    whatever the backend does: the requests sent are the first [k]
    chunks of the text, in order, with [k] at least one; if fewer than
    all chunks were sent, [translate_text] has raised. *)
Theorem translate_text_sends_prefix (env : Env) (text : str) (w : World) :
  strip text <> [] ->
  (len text > 4000)%Z ->
  exists k,
    (1 <= k <= length (chunk_text text default_max_len))%nat
    /\ requests (snd (translate_text env text w))
       = requests w ++ firstn k (chunk_text text default_max_len)
    /\ ((k < length (chunk_text text default_max_len))%nat ->
        exists e, fst (translate_text env text w) = Raise e).
Proof.
  intros Hne Hl.
  assert (Hc : chunk_text text default_max_len <> []).
  { apply chunk_text_nonempty. rewrite <- strip_nil_split. exact Hne. }
  unfold translate_text. destruct (strip text) as [|c r]; [contradiction|].
  destruct (len text >? 4000)%Z eqn:T; [|test_false T; lia].
  destruct (map_m_translate_prefix env (chunk_text text default_max_len) w)
    as (k & Hk & H1 & R & F).
  exists k. unfold bind.
  destruct (map_m (translator_translate env)
              (chunk_text text default_max_len) w) as [[rs|e] w'];
    simpl in *.
  - rewrite join_translated_world. split; [split; [apply H1; exact Hc|exact Hk]|].
    split; [exact R|]. intros H. destruct (F H) as [e E]. discriminate.
  - split; [split; [apply H1; exact Hc|exact Hk]|].
    split; [exact R|]. intros _. exists e. reflexivity.
Qed.

Lemma translate_text_sends_prefix_witness :
  exists k,
    (1 <= k <= length (chunk_text wide_text default_max_len))%nat
    /\ requests (snd (translate_text failing_env wide_text empty_world))
       = requests empty_world ++ firstn k (chunk_text wide_text default_max_len)
    /\ ((k < length (chunk_text wide_text default_max_len))%nat ->
        exists e, fst (translate_text failing_env wide_text empty_world)
                  = Raise e).
Proof.
  apply (@translate_text_sends_prefix failing_env wide_text empty_world).
  - vm_compute. discriminate.
  - vm_compute. reflexivity.
Defined.

(** X6. For a text longer than 4000 characters that is not blank,
    [translate_text] never returns [None]: a [None] among the replies
    makes the join raise. *)
Theorem translate_text_long_not_none (env : Env) (text : str) (w : World) :
  strip text <> [] ->
  (len text > 4000)%Z ->
  fst (translate_text env text w) <> Ok None.
Proof.
  intros Hne Hl. unfold translate_text.
  destruct (strip text) as [|c r]; [contradiction|].
  destruct (len text >? 4000)%Z eqn:T; [|test_false T; lia].
  unfold bind.
  destruct (map_m (translator_translate env)
              (chunk_text text default_max_len) w) as [[rs|e] w'];
    [|discriminate].
  unfold join_translated. destruct (all_str rs); discriminate.
Qed.

Lemma translate_text_long_not_none_witness :
  fst (translate_text echo_env wide_text empty_world) <> Ok None.
Proof.
  apply (@translate_text_long_not_none echo_env wide_text empty_world).
  - vm_compute. discriminate.
  - vm_compute. reflexivity.
Defined.

(** ** The rewriters and the file system *)

Lemma keeps_translate_block (env : Env) (xref : Z) (pno : nat)
    (d : PdfDoc) (block : Block) :
  keeps_fs (translate_block env xref pno d block).
Proof.
  unfold translate_block. destruct (block_text block); [|apply keeps_ret].
  apply keeps_bind; [apply keeps_translate_text|]. intros v.
  destruct (htmlbox_error env _ _); [apply keeps_raise|apply keeps_ret].
Qed.

Lemma keeps_translate_page (env : Env) (xref : Z) (d : PdfDoc) (pno : nat) :
  keeps_fs (translate_page env xref d pno).
Proof. apply keeps_fold_m. intros. apply keeps_translate_block. Qed.

Lemma keeps_pymupdf_open (input_path : path) :
  keeps_fs (pymupdf_open input_path).
Proof.
  intros w. unfold pymupdf_open.
  destruct (files w input_path) as [[b|a|d]|]; auto.
Qed.

Lemma keeps_translate_pdf_doc (env : Env) (input_path : path) :
  keeps_fs (translate_pdf_doc env input_path).
Proof.
  unfold translate_pdf_doc.
  apply keeps_bind; [apply keeps_pymupdf_open|]. intros doc. simpl.
  apply keeps_fold_m. intros. apply keeps_translate_page.
Qed.

Lemma raise_keeps_bind {A B} (m : M A) (k : A -> M B) :
  (forall w, files (snd (m w)) = files w) ->
  (forall a, raise_keeps_files (k a)) ->
  raise_keeps_files (bind m k).
Proof.
  intros Hm Hk w e w'. unfold bind. specialize (Hm w).
  destruct (m w) as [[a|e0] w1]; simpl in *.
  - intros H. rewrite (Hk a w1 e w' H). exact Hm.
  - intros [= _ <-]. exact Hm.
Qed.

Lemma keeps_fs_files {A} (m : M A) :
  keeps_fs m -> forall w, files (snd (m w)) = files w.
Proof. intros H w. apply H. Qed.

Lemma raise_keeps_write_file (p : path) (c : content) :
  raise_keeps_files (write_file p c).
Proof.
  intros w e w'. unfold write_file. destruct (isdir w p).
  - intros [= _ <-]. reflexivity.
  - destruct (parent_exists w p); [discriminate|].
    intros [= _ <-]. reflexivity.
Qed.

Lemma raise_keeps_translate_pdf_body (env : Env)
    (input_path output_path : path) :
  raise_keeps_files (translate_pdf_body env input_path output_path).
Proof.
  unfold translate_pdf_body.
  apply raise_keeps_bind; [apply keeps_fs_files, keeps_translate_pdf_doc|].
  intros d'. apply raise_keeps_bind.
  - intros w. destruct (makedirs _ w) as [r w'] eqn:E.
    apply (makedirs_files _ _ E).
  - intros []. unfold ez_save.
    destruct (str_eqb output_path input_path).
    + intros w e w' [= _ <-]. reflexivity.
    + apply raise_keeps_write_file.
Qed.

Lemma always_raises_bind {A B} (m : M A) (k : A -> M B) :
  (forall a, always_raises (k a)) -> always_raises (bind m k).
Proof.
  intros Hk w. unfold bind. destruct (m w) as [[a|e] w1].
  - apply Hk.
  - exists e, w1. reflexivity.
Qed.

Lemma always_raises_first {A B} (m : M A) (k : A -> M B) :
  always_raises m -> always_raises (bind m k).
Proof.
  intros Hm w. unfold bind. destruct (Hm w) as (e & w1 & ->).
  exists e, w1. reflexivity.
Qed.

Lemma makedirs_empty (w : World) :
  makedirs [] w
  = (Raise (FileNotFoundError
              (lit "[Errno 2] No such file or directory: ''")), w).
Proof. reflexivity. Qed.

(** X8. [translate_pdf] saves all or nothing: when its [try] block
    raises, at whatever step, every file is as it was before the call,
    also after the handler has printed the failure. *)
Theorem translate_pdf_all_or_nothing (env : Env)
    (input_path output_path : path) (w w1 : World) (e : exn) :
  translate_pdf_body env input_path output_path w = (Raise e, w1) ->
  files w1 = files w
  /\ files (snd (translate_pdf env input_path output_path w)) = files w
  /\ stdout (snd (translate_pdf env input_path output_path w))
     = stdout w1 ++ [pdf_failure input_path e].
Proof.
  intros H.
  pose proof (raise_keeps_translate_pdf_body env input_path output_path
                w H) as F.
  unfold translate_pdf. rewrite try_except_print, H. simpl. auto.
Qed.

Lemma translate_pdf_all_or_nothing_witness :
  let w1 := snd (translate_pdf_body pdf_env (lit "translate/none.pdf")
                   (lit "Portuguese/none.pdf") pdf_world) in
  files w1 = files pdf_world
  /\ files (snd (translate_pdf pdf_env (lit "translate/none.pdf")
                   (lit "Portuguese/none.pdf") pdf_world))
     = files pdf_world
  /\ stdout (snd (translate_pdf pdf_env (lit "translate/none.pdf")
                    (lit "Portuguese/none.pdf") pdf_world))
     = stdout w1
       ++ [pdf_failure (lit "translate/none.pdf") (Error (lit "no such file"))].
Proof.
  apply (@translate_pdf_all_or_nothing pdf_env (lit "translate/none.pdf")
           (lit "Portuguese/none.pdf") pdf_world).
  apply injective_projections; [vm_compute; reflexivity|reflexivity].
Defined.

(** X9. [translate_pdf] creates the directory before it saves, and
    [os.makedirs] refuses the empty name: for an output path without a
    directory part the [try] block always raises, no file is changed,
    and the failure is printed. *)
Theorem translate_pdf_bare_output (env : Env)
    (input_path output_path : path) (w : World) :
  OsPath.dirname output_path = [] ->
  exists e w1,
    translate_pdf_body env input_path output_path w = (Raise e, w1)
    /\ files w1 = files w
    /\ translate_pdf env input_path output_path w
       = (Ok tt, set_stdout (stdout w1 ++ [pdf_failure input_path e]) w1).
Proof.
  intros Hd.
  assert (R : always_raises (translate_pdf_body env input_path output_path)).
  { unfold translate_pdf_body. apply always_raises_bind. intros d'.
    rewrite Hd.
    apply always_raises_first. intros w0. eexists _, _. apply makedirs_empty. }
  destruct (R w) as (e & w1 & E). exists e, w1. split; [exact E|].
  split; [apply (raise_keeps_translate_pdf_body env input_path output_path w E)|].
  unfold translate_pdf. rewrite try_except_print, E. reflexivity.
Qed.

Lemma translate_pdf_bare_output_witness :
  exists e w1,
    translate_pdf_body pdf_env (lit "translate/a.pdf") (lit "a.pdf") pdf_world
      = (Raise e, w1)
    /\ files w1 = files pdf_world
    /\ translate_pdf pdf_env (lit "translate/a.pdf") (lit "a.pdf") pdf_world
       = (Ok tt,
          set_stdout
            (stdout w1 ++ [pdf_failure (lit "translate/a.pdf") e]) w1).
Proof.
  apply (@translate_pdf_bare_output pdf_env (lit "translate/a.pdf")
           (lit "a.pdf") pdf_world).
  vm_compute. reflexivity.
Defined.

(** X10. [translate_docx] creates the directory after it has written
    the archive. For an output path without a directory part, a run
    whose steps up to the repack succeed has written the archive to
    [output_path] and still ends in the handler: the failure of
    [os.makedirs] on the empty name is printed for [input_path]. *)
Theorem translate_docx_bare_output (env : Env)
    (input_path output_path : path) (w w1 w2 w3 : World)
    (doc doc' : Document) :
  OsPath.dirname output_path = [] ->
  open_document env input_path w = (Ok doc, w1) ->
  translate_document env doc w1 = (Ok doc', w2) ->
  rezip env input_path output_path w2 = (Ok tt, w3) ->
  (exists t, files w3 output_path = Some (Zip t))
  /\ translate_docx env input_path output_path w
     = (Ok tt,
        set_stdout
          (stdout w3
           ++ [docx_failure input_path
                 (FileNotFoundError
                    (lit "[Errno 2] No such file or directory: ''"))]) w3).
Proof.
  intros Hd H1 H2 H3. split.
  - unfold rezip in H3.
    apply bind_ok in H3. destruct H3 as (t & w4 & _ & H3).
    apply bind_ok in H3. destruct H3 as (t' & w5 & _ & Wr).
    exists (walk env t'). apply (write_file_ok _ _ _ Wr).
  - unfold translate_docx. rewrite try_except_print.
    unfold translate_docx_body, bind. rewrite H1, H2, H3, Hd.
    reflexivity.
Qed.

Lemma translate_docx_bare_output_witness :
  (exists t, files (snd (translate_docx docx_env (lit "translate/a.docx")
                           (lit "a.docx") docx_world))
               (lit "a.docx") = Some (Zip t))
  /\ stdout (snd (translate_docx docx_env (lit "translate/a.docx")
                    (lit "a.docx") docx_world))
     = [lit "Failed to translate DOCX translate/a.docx: [Errno 2] No such file or directory: ''. Skipping."].
Proof.
  set (i := lit "translate/a.docx"). set (o := lit "a.docx").
  set (r1 := open_document docx_env i docx_world).
  set (r2 := translate_document docx_env
               {| paragraphs := [lit "Good morning"]; tables := [] |}
               docx_world).
  set (r3 := rezip docx_env i o (snd r2)).
  destruct (@translate_docx_bare_output docx_env i o docx_world docx_world
              (snd r2) (snd r3)
              {| paragraphs := [lit "Good morning"]; tables := [] |}
              {| paragraphs := [lit "Bom dia"]; tables := [] |})
    as [[t Ht] E].
  - vm_compute. reflexivity.
  - reflexivity.
  - apply injective_projections; [vm_compute; reflexivity|reflexivity].
  - apply injective_projections; [vm_compute; reflexivity|reflexivity].
  - rewrite E. split.
    + exists t. exact Ht.
    + vm_compute. reflexivity.
Defined.

(** ** translate_pdf: what is drawn on a page *)

Lemma translate_blocks_ops (env : Env) (xref : Z) (pno : nat)
    (blocks : list Block) :
  forall (d d' : PdfDoc) (w w' : World),
    fold_m (translate_block env xref pno) blocks d w = (Ok d', w') ->
    exists new,
      pdf_ops d' = pdf_ops d ++ new
      /\ block_ops env xref pno blocks new.
Proof.
  induction blocks as [|b bs IH]; intros d d' w w' H; simpl in H.
  - injection H as <- _. exists []. rewrite app_nil_r.
    split; [reflexivity|constructor].
  - apply bind_ok in H. destruct H as (d1 & w1 & Hb & H).
    destruct (IH d1 d' w1 w' H) as (new & E & Ops).
    unfold translate_block in Hb.
    destruct (block_text b) as [t|] eqn:T.
    + apply bind_ok in Hb. destruct Hb as (v & w0 & Tr & Hb).
      destruct (htmlbox_error env _ _); [discriminate|].
      injection Hb as <- _. simpl in E.
      eexists. split.
      * rewrite E, <- !app_assoc. simpl. reflexivity.
      * eapply block_ops_draw; eassumption.
    + injection Hb as <- _. exists new. split; [exact E|].
      apply block_ops_skip; assumption.
Qed.

(** X11. When the loop over the blocks of a page succeeds, the drawings
    it has added follow the blocks in order: nothing for a block whose
    text is not a [str]; for a text block the white rectangle over the
    block's own box and then its translation in the same box (the empty
    text when the translation is [None]), both in the overlay layer. *)
Theorem translate_page_ops (env : Env) (xref : Z) (d d' : PdfDoc)
    (pno : nat) (w w' : World) :
  translate_page env xref d pno w = (Ok d', w') ->
  exists new,
    pdf_ops d' = pdf_ops d ++ new
    /\ block_ops env xref pno (get_text_blocks env d pno) new.
Proof. unfold translate_page. apply translate_blocks_ops. Qed.

Lemma translate_page_ops_witness :
  let box := {| x0 := 72; y0 := 72; x1 := 300; y1 := 90 |} in
  let d' := add_op (add_op pdf_a (draw_rect 0 box WHITE 10))
              (insert_htmlbox 0 box (lit "Bom dia") 10) in
  exists new,
    pdf_ops d' = pdf_ops pdf_a ++ new
    /\ block_ops pdf_env 10 0 (get_text_blocks pdf_env pdf_a 0) new.
Proof.
  intros box d'.
  apply (@translate_page_ops pdf_env 10 pdf_a d' 0 pdf_world
           (snd (translate_page pdf_env 10 pdf_a 0 pdf_world))).
  apply injective_projections; [vm_compute; reflexivity|reflexivity].
Defined.

(** ** translate_docx: the order of the requests *)

Lemma all_str_somes (ss : list str) : all_str (map Some ss) = Some ss.
Proof.
  induction ss as [|s ss IH]; simpl; [reflexivity|]. rewrite IH. reflexivity.
Qed.

Lemma sends_map_m {A B} (f : A -> M B) (g : A -> list str) :
  sends f g -> sends (map_m f) (flat_map g).
Proof.
  intros H xs. induction xs as [|x xs IH]; intros w.
  - exists [], w. simpl. rewrite app_nil_r. auto.
  - destruct (H x w) as (y & w1 & E1 & R1).
    destruct (IH w1) as (ys & w2 & E2 & R2).
    exists (y :: ys), w2. split.
    + simpl. unfold bind at 1. rewrite E1. unfold bind at 1. rewrite E2.
      reflexivity.
    + rewrite R2, R1. simpl. rewrite <- app_assoc. reflexivity.
Qed.

Lemma map_m_translate_somes (env : Env) :
  (forall h t, exists s, backend env h t = Ok (Some s)) ->
  forall chunks w,
  exists ss w',
    map_m (translator_translate env) chunks w = (Ok (map Some ss), w')
    /\ requests w' = requests w ++ chunks.
Proof.
  intros Htot. induction chunks as [|c chunks IH]; intros w.
  - exists [], w. rewrite app_nil_r. auto.
  - destruct (Htot (requests w) c) as [s Es].
    destruct (IH (set_requests (requests w ++ [c]) w)) as (ss & w' & Em & R).
    exists (s :: ss), w'. rewrite map_m_translate_cons, Es, Em.
    split; [reflexivity|]. rewrite R. simpl. rewrite <- app_assoc.
    reflexivity.
Qed.

Lemma translate_paragraph_sends (env : Env) :
  (forall h t, exists s, backend env h t = Ok (Some s)) ->
  sends (translate_paragraph env) text_requests.
Proof.
  intros Htot text w. unfold translate_paragraph, translate_text, text_requests.
  destruct (strip text) as [|c r].
  - exists text, w. rewrite app_nil_r. auto.
  - destruct (len text >? 4000)%Z.
    + destruct (map_m_translate_somes env Htot
                  (chunk_text text default_max_len) w) as (ss & w' & Em & R).
      exists (Py.join [space] ss), w'. split; [|exact R].
      unfold bind. rewrite Em. unfold join_translated.
      rewrite all_str_somes. reflexivity.
    + destruct (Htot (requests w) text) as [s Es].
      exists s, (set_requests (requests w ++ [text]) w). split; [|reflexivity].
      unfold bind, translator_translate. rewrite Es. reflexivity.
Qed.

Lemma fold_m_app {A S} (body : S -> A -> M S) (xs ys : list A) (s : S)
    (w : World) :
  fold_m body (xs ++ ys) s w
  = bind (fold_m body xs s) (fun s' => fold_m body ys s') w.
Proof.
  revert s w. induction xs as [|x xs IH]; intros s w; simpl.
  - reflexivity.
  - unfold bind. destruct (body s x w) as [[s1|e] w1]; [|reflexivity].
    rewrite IH. reflexivity.
Qed.

(** Nested loops visit the items of the inner lists in order. *)
Lemma fold_m_concat {A S} (body : S -> A -> M S) (xss : list (list A))
    (s : S) (w : World) :
  fold_m (fun s' xs => fold_m body xs s') xss s w
  = fold_m body (concat xss) s w.
Proof.
  revert s w. induction xss as [|xs xss IH]; intros s w; simpl.
  - reflexivity.
  - rewrite fold_m_app. unfold bind.
    destruct (fold_m body xs s w) as [[s1|e] w1]; [|reflexivity]. apply IH.
Qed.

Lemma translate_tables_flat (env : Env) (ts : list Table) (s : cell_store)
    (w : World) :
  fold_m (translate_table env) ts s w
  = fold_m (translate_cell env) (concat (concat ts)) s w.
Proof.
  exact (eq_trans
           (fold_m_concat (fun s' row => fold_m (translate_cell env) row s')
              ts s w)
           (fold_m_concat (translate_cell env) (concat ts) s w)).
Qed.

(** Cells that the loop has not written yet are read as the document
    has them. *)
Lemma translate_cells_requests (env : Env) :
  (forall h t, exists s, backend env h t = Ok (Some s)) ->
  forall cells s w,
    NoDup (map cell_id cells) ->
    (forall c, In c cells -> written s (cell_id c) = None) ->
    exists s' w',
      fold_m (translate_cell env) cells s w = (Ok s', w')
      /\ requests w'
         = requests w
           ++ flat_map (fun c => flat_map text_requests (cell_texts c)) cells.
Proof.
  intros Htot. pose proof (translate_paragraph_sends env Htot) as P.
  induction cells as [|c cells IH]; intros s w Hn Hs.
  - exists s, w. simpl. rewrite app_nil_r. auto.
  - inversion Hn as [|? ? Hc Hn']; subst.
    destruct (sends_map_m P (cell_texts c) w) as (texts & w1 & E1 & R1).
    destruct (IH ((cell_id c, texts) :: s) w1 Hn') as (s' & w' & E2 & R2).
    { intros c' Hin. simpl.
      destruct (cell_id c =? cell_id c')%nat eqn:E.
      - apply Nat.eqb_eq in E. exfalso. apply Hc. rewrite E.
        apply in_map. exact Hin.
      - apply Hs. right. exact Hin. }
    exists s', w'. split.
    + simpl. unfold bind at 1. unfold translate_cell at 1. unfold cell_now.
      rewrite (Hs c) by (left; reflexivity).
      unfold bind at 1. rewrite E1. simpl. exact E2.
    + rewrite R2, R1. simpl. rewrite <- app_assoc. reflexivity.
Qed.

(** X12. With a backend that answers every request with a text, and a
    document in which no cell object is listed twice (no merged cell),
    phase 1 succeeds and sends its requests in document order: first
    those of the body paragraphs, then those of the tables, table by
    table, row by row, cell by cell and paragraph by paragraph. A blank
    paragraph sends nothing, one of at most 4000 characters sends
    itself, a longer one sends its chunks. *)
Theorem translate_document_requests (env : Env) (doc : Document) (w : World) :
  (forall h t, exists s, backend env h t = Ok (Some s)) ->
  NoDup (map cell_id (concat (concat (tables doc)))) ->
  exists doc' w',
    translate_document env doc w = (Ok doc', w')
    /\ requests w'
       = requests w
         ++ flat_map text_requests (paragraphs doc)
         ++ flat_map (fun c => flat_map text_requests (cell_texts c))
              (concat (concat (tables doc))).
Proof.
  intros Htot Hn. pose proof (translate_paragraph_sends env Htot) as P.
  destruct (sends_map_m P (paragraphs doc) w) as (ps & w1 & E1 & R1).
  destruct (translate_cells_requests env Htot
              (concat (concat (tables doc))) [] w1 Hn)
    as (s' & w2 & E2 & R2); [reflexivity|].
  eexists _, w2. split.
  - unfold translate_document, bind. rewrite E1, translate_tables_flat, E2.
    reflexivity.
  - rewrite R2, R1, <- app_assoc. reflexivity.
Qed.

Lemma translate_document_requests_witness :
  let doc :=
    {| paragraphs := [lit "Good morning"; lit "  "];
       tables := [[[ {| cell_id := 0; cell_texts := [lit "Good"; lit ""] |};
                     {| cell_id := 1; cell_texts := [lit "morning"] |} ]]] |} in
  exists doc' w',
    translate_document docx_env doc empty_world = (Ok doc', w')
    /\ requests w'
       = requests empty_world
         ++ flat_map text_requests (paragraphs doc)
         ++ flat_map (fun c => flat_map text_requests (cell_texts c))
              (concat (concat (tables doc))).
Proof.
  intros doc. apply (@translate_document_requests docx_env doc empty_world).
  - intros h t. simpl.
    destruct (str_eqb t (lit "Good morning")); eexists; reflexivity.
  - repeat constructor; simpl; intuition discriminate.
Defined.

(** A merged cell, listed twice by its row, is translated twice: the
    second visit reads what the first has written. *)
Example translate_document_merged_cell :
  let c := {| cell_id := 0; cell_texts := [lit "Good morning"] |} in
  requests (snd (translate_document docx_env
                   {| paragraphs := []; tables := [[[c; c]]] |} empty_world))
  = [lit "Good morning"; lit "Bom dia"].
Proof. vm_compute. reflexivity. Qed.

(** ** The bridge *)

Lemma str_eqb_refl (a : str) : str_eqb a a = true.
Proof. apply str_eqb_eq. reflexivity. Qed.

Lemma convert_using_pandoc_missing (env : Env)
    (input_path output_dir to_format : str) (w : World) :
  (forall cmd w0, exists m,
      run_process env cmd w0 = (Raise (FileNotFoundError m), w0)) ->
  convert_using_pandoc env input_path output_dir to_format w
  = (Raise pandoc_not_found,
     set_spawned
       (spawned w ++ [pandoc_cmd input_path output_dir to_format]) w).
Proof.
  intros Hrun. unfold convert_using_pandoc, try_except, subprocess_run.
  destruct (Hrun (pandoc_cmd input_path output_dir to_format)
              (set_spawned
                 (spawned w ++ [pandoc_cmd input_path output_dir to_format]) w))
    as [m E].
  rewrite E. reflexivity.
Qed.

Lemma bind_raise {A B} (m : M A) (k : A -> M B) (w w' : World) (e : exn) :
  m w = (Raise e, w') -> bind m k w = (Raise e, w').
Proof. intros H. unfold bind. rewrite H. reflexivity. Qed.

(** X13. On a machine without the converter, where running it raises
    [FileNotFoundError] and changes nothing, a job with an extension
    other than [.docx] and [.pdf] ends after the first command: the
    only subprocess run is the conversion to [docx] in the temporary
    directory, nothing is sent to the backend, no file outside the
    temporary directory changes, and the one line printed is the bridge
    failure with the "Pandoc not found" message. *)
Theorem bridge_converter_missing (env : Env)
    (input_path output_path ext : str) (w : World) :
  (forall cmd w0, exists m,
      run_process env cmd w0 = (Raise (FileNotFoundError m), w0)) ->
  str_eqb ext (lit ".docx") = false ->
  str_eqb ext (lit ".pdf") = false ->
  let r := process_file env input_path output_path ext w in
  fst r = Ok tt
  /\ stdout (snd r)
     = stdout w ++ [bridge_failure input_path ext pandoc_not_found]
  /\ requests (snd r) = requests w
  /\ spawned (snd r)
     = spawned w ++ [pandoc_cmd input_path (mkdtemp env w) (lit "docx")]
  /\ (forall p, below (mkdtemp env w) p = false ->
                files (snd r) p = files w p).
Proof.
  intros Hrun Hd Hp. cbv zeta. unfold process_file. rewrite Hd, Hp.
  rewrite try_except_print. unfold bridge_body, with_tempdir.
  match goal with
  | |- context [bind ?m ?k ?w0] =>
      rewrite (@bind_raise _ _ m k w0 _ _
                 (convert_using_pandoc_missing env _ _ _ w0 Hrun))
  end.
  simpl. do 4 (split; [reflexivity|]).
  intros p Hb. rewrite Hb. reflexivity.
Qed.

Lemma bridge_converter_missing_witness :
  let r := process_file failing_env (lit "translate/a.rtf")
             (lit "Portuguese/a.rtf") (lit ".rtf") docx_world in
  fst r = Ok tt
  /\ stdout (snd r)
     = stdout docx_world
       ++ [bridge_failure (lit "translate/a.rtf") (lit ".rtf") pandoc_not_found]
  /\ requests (snd r) = requests docx_world
  /\ spawned (snd r)
     = spawned docx_world
       ++ [pandoc_cmd (lit "translate/a.rtf") (mkdtemp failing_env docx_world)
             (lit "docx")]
  /\ (forall p, below (mkdtemp failing_env docx_world) p = false ->
                files (snd r) p = files docx_world p).
Proof.
  apply (@bridge_converter_missing failing_env (lit "translate/a.rtf")
           (lit "Portuguese/a.rtf") (lit ".rtf") docx_world).
  - intros cmd w0. eexists. reflexivity.
  - vm_compute. reflexivity.
  - vm_compute. reflexivity.
Defined.

(** X14. A bridged job leaves nothing of its temporary directory,
    whether it succeeds or fails and whatever the converter and the
    rewriter did in it: afterwards the directory does not exist and
    there is no file below it. *)
Theorem bridge_removes_tempdir (env : Env)
    (input_path output_path ext : str) (w : World) :
  str_eqb ext (lit ".docx") = false ->
  str_eqb ext (lit ".pdf") = false ->
  let r := process_file env input_path output_path ext w in
  isdir (snd r) (mkdtemp env w) = false
  /\ (forall p, below (mkdtemp env w) p = true -> files (snd r) p = None).
Proof.
  intros Hd Hp. cbv zeta. unfold process_file. rewrite Hd, Hp.
  rewrite try_except_print. unfold bridge_body, with_tempdir.
  match goal with
  | |- context [bind ?m ?k ?w0] => destruct (bind m k w0) as [[u|e] w1]
  end; simpl; rewrite str_eqb_refl; simpl; split; try reflexivity;
    intros p Hb; rewrite Hb; reflexivity.
Qed.

Lemma bridge_removes_tempdir_witness :
  let r := process_file docx_env (lit "translate/a.rtf")
             (lit "Portuguese/a.rtf") (lit ".rtf") docx_world in
  isdir (snd r) (mkdtemp docx_env docx_world) = false
  /\ (forall p, below (mkdtemp docx_env docx_world) p = true ->
                files (snd r) p = None).
Proof.
  apply (@bridge_removes_tempdir docx_env (lit "translate/a.rtf")
           (lit "Portuguese/a.rtf") (lit ".rtf") docx_world).
  - vm_compute. reflexivity.
  - vm_compute. reflexivity.
Defined.

(** ** The paths of the bridge *)

Lemma take_while_all (f : char -> bool) (s : str) :
  forallb f s = true -> OsPath.take_while f s = s.
Proof.
  induction s as [|c s IH]; simpl; [reflexivity|].
  intros H. apply andb_true_iff in H as [Hc H]. rewrite Hc, IH by exact H.
  reflexivity.
Qed.

Lemma drop_while_all (f : char -> bool) (s : str) :
  forallb f s = true -> OsPath.drop_while f s = [].
Proof.
  induction s as [|c s IH]; simpl; [reflexivity|].
  intros H. apply andb_true_iff in H as [Hc H]. rewrite Hc. exact (IH H).
Qed.

Lemma take_while_stop (f : char -> bool) (a r : str) (c : char) :
  forallb f a = true -> f c = false ->
  OsPath.take_while f (a ++ c :: r) = a.
Proof.
  induction a as [|x a IH]; simpl; intros H Hc.
  - rewrite Hc. reflexivity.
  - apply andb_true_iff in H as [Hx H]. rewrite Hx, IH by assumption.
    reflexivity.
Qed.

Lemma drop_while_stop (f : char -> bool) (a r : str) (c : char) :
  forallb f a = true -> f c = false ->
  OsPath.drop_while f (a ++ c :: r) = c :: r.
Proof.
  induction a as [|x a IH]; simpl; intros H Hc.
  - rewrite Hc. reflexivity.
  - apply andb_true_iff in H as [Hx H]. rewrite Hx. apply IH; assumption.
Qed.

Lemma take_while_forallb (f : char -> bool) (s : str) :
  forallb f (OsPath.take_while f s) = true.
Proof.
  induction s as [|c s IH]; simpl; [reflexivity|].
  destruct (f c) eqn:Hc; simpl; [rewrite Hc; exact IH|reflexivity].
Qed.

Lemma take_drop_while (f : char -> bool) (s : str) :
  OsPath.take_while f s ++ OsPath.drop_while f s = s.
Proof.
  induction s as [|c s IH]; simpl; [reflexivity|].
  destruct (f c); simpl; [rewrite IH|]; reflexivity.
Qed.

Lemma drop_while_head (f : char -> bool) (s r : str) (c : char) :
  OsPath.drop_while f s = c :: r -> f c = false.
Proof.
  induction s as [|x s IH]; simpl; [discriminate|].
  destruct (f x) eqn:Hx; [exact IH|]. intros [= <- _]. exact Hx.
Qed.

Lemma forallb_rev (f : char -> bool) (s : str) :
  forallb f (rev s) = forallb f s.
Proof.
  induction s as [|c s IH]; simpl; [reflexivity|].
  rewrite forallb_app, IH. simpl. rewrite andb_true_r. apply andb_comm.
Qed.

(** A name without a slash is its own last component. *)
Lemma basename_nosep (x : str) :
  forallb (OsPath.isnt_char OsPath.sep) x = true -> OsPath.basename x = x.
Proof.
  intros H. unfold OsPath.basename.
  rewrite take_while_all by (rewrite forallb_rev; exact H).
  apply rev_involutive.
Qed.

Lemma head_nosep (x : str) :
  forallb (OsPath.isnt_char OsPath.sep) x = true -> OsPath.head x = [].
Proof.
  intros H. unfold OsPath.head.
  rewrite drop_while_all by (rewrite forallb_rev; exact H). reflexivity.
Qed.

Lemma basename_has_no_sep (p : path) :
  forallb (OsPath.isnt_char OsPath.sep) (OsPath.basename p) = true.
Proof.
  unfold OsPath.basename. rewrite forallb_rev. apply take_while_forallb.
Qed.

Lemma basename_after_sep (a x : str) :
  forallb (OsPath.isnt_char OsPath.sep) x = true ->
  OsPath.basename (a ++ OsPath.sep :: x) = x.
Proof.
  intros H. unfold OsPath.basename.
  rewrite rev_app_distr. simpl. rewrite <- app_assoc. simpl.
  rewrite take_while_stop; [apply rev_involutive| |reflexivity].
  rewrite forallb_rev. exact H.
Qed.

(** The last component of [os.path.join(a, x)] is [x] when [x] has no
    slash. *)
Lemma basename_join (a x : str) :
  forallb (OsPath.isnt_char OsPath.sep) x = true ->
  OsPath.basename (OsPath.join a x) = x.
Proof.
  intros H. unfold OsPath.join.
  assert (S : startswith x [OsPath.sep] = false).
  { destruct x as [|c x]; [reflexivity|].
    change (forallb (OsPath.isnt_char OsPath.sep) (c :: x))
      with (negb (c =? OsPath.sep)%N
            && forallb (OsPath.isnt_char OsPath.sep) x) in H.
    apply andb_true_iff in H as [Hc _]. apply negb_true_iff in Hc.
    change (startswith (c :: x) [OsPath.sep])
      with ((OsPath.sep =? c)%N && startswith x []).
    rewrite N.eqb_sym, Hc. reflexivity. }
  rewrite S. destruct a as [|c a]; [apply basename_nosep; exact H|].
  destruct (endswith (c :: a) [OsPath.sep]) eqn:E.
  - unfold endswith in E. change (rev [OsPath.sep]) with [OsPath.sep] in E.
    destruct (rev (c :: a)) as [|y r] eqn:R; [discriminate|].
    change (startswith (y :: r) [OsPath.sep])
      with ((OsPath.sep =? y)%N && startswith r []) in E.
    apply andb_true_iff in E as [E _].
    apply N.eqb_eq in E. subst y.
    assert (Ca : c :: a = rev r ++ [OsPath.sep]).
    { rewrite <- (rev_involutive (c :: a)), R. reflexivity. }
    rewrite Ca, <- app_assoc. simpl. apply basename_after_sep. exact H.
  - apply basename_after_sep. exact H.
Qed.

(** What [os.path.splitext] does on a name without a slash: either no
    extension, or the name is cut at its last dot, and the root has a
    character that is not a dot. *)
Lemma splitext_nosep (b : str) :
  forallb (OsPath.isnt_char OsPath.sep) b = true ->
  OsPath.splitext b = (b, [])
  \/ exists root ext,
       b = root ++ OsPath.dot :: ext
       /\ OsPath.splitext b = (root, OsPath.dot :: ext)
       /\ forallb (OsPath.is_char OsPath.dot) root = false.
Proof.
  intros H. unfold OsPath.splitext.
  rewrite (basename_nosep b H), (head_nosep b H).
  pose proof (take_drop_while (OsPath.isnt_char OsPath.dot) (rev b)) as TD.
  destruct (OsPath.drop_while (OsPath.isnt_char OsPath.dot) (rev b))
    as [|c root_rev] eqn:D; [left; reflexivity|].
  destruct (forallb (OsPath.is_char OsPath.dot) root_rev) eqn:F;
    [left; reflexivity|].
  right. exists (rev root_rev),
    (rev (OsPath.take_while (OsPath.isnt_char OsPath.dot) (rev b))).
  assert (Cd : c = OsPath.dot).
  { apply drop_while_head in D. unfold OsPath.isnt_char in D.
    apply negb_false_iff in D. apply N.eqb_eq in D. exact D. }
  subst c. split; [|split].
  - rewrite <- (rev_involutive b), <- TD at 1.
    rewrite rev_app_distr. simpl. rewrite <- app_assoc. reflexivity.
  - reflexivity.
  - rewrite forallb_rev. exact F.
Qed.

Lemma splitext_root_docx (base : str) :
  forallb (OsPath.isnt_char OsPath.sep) base = true ->
  forallb (OsPath.is_char OsPath.dot) base = false ->
  OsPath.splitext (base ++ lit ".docx") = (base, lit ".docx").
Proof.
  intros Hs Hd.
  assert (Hx : forallb (OsPath.isnt_char OsPath.sep) (base ++ lit ".docx")
               = true)
    by (rewrite forallb_app, Hs; reflexivity).
  unfold OsPath.splitext.
  rewrite (basename_nosep _ Hx), (head_nosep _ Hx).
  rewrite rev_app_distr.
  change (rev (lit ".docx")) with (lit "xcod" ++ OsPath.dot :: []).
  rewrite <- app_assoc.
  change ([OsPath.dot] ++ rev base) with (OsPath.dot :: rev base).
  rewrite take_while_stop, drop_while_stop by reflexivity.
  rewrite forallb_rev, Hd, rev_involutive. reflexivity.
Qed.

(** X15. In the bridge, for an input whose file name has an extension:
    the path the second conversion asks the converter to write, derived
    from the intermediate [docx_path], is the [converted_path] that the
    bridge then compares with [output_path] and renames. *)
Theorem bridge_converted_path (temp_dir input_path output_dir fmt : str) :
  snd (OsPath.splitext (OsPath.basename input_path)) <> [] ->
  let base_name := fst (OsPath.splitext (OsPath.basename input_path)) in
  let docx_path := OsPath.join temp_dir (base_name ++ lit ".docx") in
  pandoc_output docx_path output_dir fmt
  = OsPath.join output_dir (base_name ++ lit "." ++ fmt).
Proof.
  intros He. cbv zeta. unfold pandoc_output.
  destruct (splitext_nosep (OsPath.basename input_path)
              (basename_has_no_sep input_path))
    as [E|(root & ext & Eb & E & Hd)];
    rewrite E in *; simpl fst in *; simpl snd in *; [contradiction|].
  assert (Hs : forallb (OsPath.isnt_char OsPath.sep) root = true).
  { pose proof (basename_has_no_sep input_path) as B. rewrite Eb in B.
    rewrite forallb_app in B. apply andb_true_iff in B. apply B. }
  rewrite basename_join by (rewrite forallb_app, Hs; reflexivity).
  rewrite (splitext_root_docx root Hs Hd). reflexivity.
Qed.

Lemma bridge_converted_path_witness :
  pandoc_output
    (OsPath.join (lit "/tmp/tmpdir")
       (fst (OsPath.splitext (OsPath.basename (lit "translate/docs/a.b.rtf")))
        ++ lit ".docx"))
    (lit "Portuguese/docs") (lit "rtf")
  = OsPath.join (lit "Portuguese/docs")
      (fst (OsPath.splitext (OsPath.basename (lit "translate/docs/a.b.rtf")))
       ++ lit "." ++ lit "rtf").
Proof.
  apply (@bridge_converted_path (lit "/tmp/tmpdir")
           (lit "translate/docs/a.b.rtf") (lit "Portuguese/docs") (lit "rtf")).
  vm_compute. discriminate.
Defined.

(** ** main: what reaches process_file *)

(** X16. For a file name that [main] hands on: the name does not start
    with a dot, and the extension given to [process_file] is one of the
    four of the list. So the last branch of [process_file] runs only for
    [.doc] and [.rtf], as its comment says, and the format it converts
    back to, [ext[1:]], is [doc] or [rtf]. *)
Theorem main_dispatch (env : Env) (file input_path output_path ext : str) :
  dispatched_ext file = Some ext ->
  startswith file (lit ".") = false
  /\ ((ext = lit ".docx"
       /\ process_file env input_path output_path ext
          = translate_docx env input_path output_path)
      \/ (ext = lit ".pdf"
          /\ process_file env input_path output_path ext
             = translate_pdf env input_path output_path)
      \/ ((tl ext = lit "doc" \/ tl ext = lit "rtf")
          /\ process_file env input_path output_path ext
             = try_except (bridge_body env input_path output_path ext)
                 (fun e => print (bridge_failure input_path ext e)))).
Proof.
  unfold dispatched_ext. destruct (startswith file (lit ".")); [discriminate|].
  destruct (existsb _ recognized) eqn:E; [|discriminate].
  intros [= <-]. split; [reflexivity|].
  apply existsb_exists in E. destruct E as (x & Hx & E).
  apply str_eqb_eq in E. rewrite E.
  destruct Hx as [<-|[<-|[<-|[<-|[]]]]].
  - left. split; reflexivity.
  - right. right. split; [left; reflexivity|reflexivity].
  - right. left. split; reflexivity.
  - right. right. split; [right; reflexivity|reflexivity].
Qed.

Lemma main_dispatch_witness :
  startswith (lit "Report.v2.RTF") (lit ".") = false
  /\ ((lit ".rtf" = lit ".docx"
       /\ process_file echo_env (lit "translate/Report.v2.RTF")
            (lit "Portuguese/Report.v2.RTF") (lit ".rtf")
          = translate_docx echo_env (lit "translate/Report.v2.RTF")
              (lit "Portuguese/Report.v2.RTF"))
      \/ (lit ".rtf" = lit ".pdf"
          /\ process_file echo_env (lit "translate/Report.v2.RTF")
               (lit "Portuguese/Report.v2.RTF") (lit ".rtf")
             = translate_pdf echo_env (lit "translate/Report.v2.RTF")
                 (lit "Portuguese/Report.v2.RTF"))
      \/ ((tl (lit ".rtf") = lit "doc" \/ tl (lit ".rtf") = lit "rtf")
          /\ process_file echo_env (lit "translate/Report.v2.RTF")
               (lit "Portuguese/Report.v2.RTF") (lit ".rtf")
             = try_except
                 (bridge_body echo_env (lit "translate/Report.v2.RTF")
                    (lit "Portuguese/Report.v2.RTF") (lit ".rtf"))
                 (fun e => print (bridge_failure
                                    (lit "translate/Report.v2.RTF")
                                    (lit ".rtf") e)))).
Proof.
  apply (@main_dispatch echo_env (lit "Report.v2.RTF")
           (lit "translate/Report.v2.RTF") (lit "Portuguese/Report.v2.RTF")
           (lit ".rtf")).
  vm_compute. reflexivity.
Defined.

(** ** chunk_text packs greedily *)

Lemma spaced_one (w : str) : spaced [w] = w ++ [space].
Proof. unfold spaced. simpl. apply app_nil_r. Qed.

(** The loop from a buffer holding the words [pend]: the chunks it adds
    and the buffer it leaves are groups of words; the first group
    continues [pend], the groups together are [pend] and the words read,
    and they are packed greedily. *)
Lemma chunk_loop_groups (max_len : Z) (ws : list str) :
  Forall word ws ->
  forall chunks pend,
    Forall word pend -> fits max_len pend ->
    exists groups pend' more rest,
      fold_left (chunk_step max_len) ws (chunks, spaced pend)
        = (chunks ++ map (Py.join [space]) groups, spaced pend')
      /\ groups ++ [pend'] = (pend ++ more) :: rest
      /\ concat (groups ++ [pend']) = pend ++ ws
      /\ greedy max_len (groups ++ [pend'])
      /\ Forall (fits max_len) (groups ++ [pend'])
      /\ Forall word pend'.
Proof.
  induction 1 as [|w ws Hw Hws IH]; intros chunks pend Hp Hfit.
  - exists [], pend, [], []. simpl. rewrite !app_nil_r.
    repeat split; auto.
  - simpl. destruct (len (spaced pend) + len w + 1 >? max_len)%Z eqn:T.
    + rewrite strip_spaced by exact Hp.
      destruct (IH (chunks ++ [Py.join [space] pend]) [w])
        as (groups & pend' & more & rest & E & Hd & Cc & Gr & Ft & Hp').
      { constructor; [exact Hw|constructor]. }
      { right. simpl. lia. }
      exists (pend :: groups), pend', [], (groups ++ [pend']).
      rewrite spaced_one, <- app_assoc in E.
      split; [exact E|]. split; [simpl; rewrite app_nil_r; reflexivity|].
      split; [simpl; rewrite Cc; reflexivity|].
      split; [|split; [constructor; assumption|exact Hp']].
      simpl. rewrite Hd in *. simpl. test_true T. split; [lia|exact Gr].
    + destruct (IH chunks (pend ++ [w]))
        as (groups & pend' & more & rest & E & Hd & Cc & Gr & Ft & Hp').
      { apply Forall_app. split; [exact Hp|]. constructor; [exact Hw|constructor]. }
      { left. rewrite spaced_snoc. test_false T. unfold len in *.
        rewrite !length_app. simpl. lia. }
      exists groups, pend', (w :: more), rest. rewrite spaced_snoc in E.
      split; [exact E|].
      split; [rewrite Hd, <- app_assoc; reflexivity|].
      split; [rewrite Cc, <- app_assoc; reflexivity|].
      repeat split; auto.
Qed.

(** X17. [chunk_text] packs the words of the text greedily. The chunks
    are groups of consecutive words, each group joined by single spaces
    and the groups together being the words of the text in order; the
    first word of every chunk but the first did not fit the buffer of
    the chunk before it (its words, each followed by a space); and a
    chunk of more than one word fits the limit with these spaces. *)
Theorem chunk_text_greedy (text : str) (max_len : Z) :
  exists G,
    chunk_text text max_len = map (Py.join [space]) G
    /\ concat G = split text
    /\ greedy max_len G
    /\ Forall (fits max_len) G.
Proof.
  unfold chunk_text. pose proof (split_words text) as Hws.
  destruct (split text) as [|w ws] eqn:Es.
  - exists []. simpl. repeat split; constructor.
  - destruct (@chunk_loop_groups max_len (w :: ws) Hws [] []
                (Forall_nil word))
      as (groups & pend' & more & rest & E & Hd & Cc & Gr & Ft & Hp').
    { right. simpl. lia. }
    change (spaced []) with (@nil char) in E. rewrite E.
    exists (groups ++ [pend']). simpl in Cc.
    assert (P : pend' <> []).
    { intros ->. pose proof (chunk_loop_count max_len (w :: ws) [] []) as C.
      cbv zeta in C. rewrite E in C. destruct C as (_ & N & _).
      destruct N as [_ N]; [reflexivity|discriminate]. }
    destruct (spaced pend') as [|c r] eqn:Sp;
      [apply spaced_nil_inv in Sp; contradiction|]. rewrite <- Sp.
    split; [|auto].
    rewrite map_app. simpl. rewrite strip_spaced by exact Hp'. reflexivity.
Qed.

(** ** chunk_text: the limit and the words that pass it *)

Lemma join_le_spaced (g : list str) :
  (len (Py.join [space] g) <= len (spaced g))%Z.
Proof.
  destruct g as [|w g]; [reflexivity|].
  rewrite spaced_join by discriminate. unfold len. rewrite length_app. lia.
Qed.

Lemma in_spaced_len (g : list str) (w : str) :
  In w g -> (len w + 1 <= len (spaced g))%Z.
Proof.
  induction g as [|x g IH]; intros H; [contradiction|].
  rewrite spaced_cons. unfold len in *. rewrite !length_app. simpl.
  destruct H as [->|H]; [lia|]. specialize (IH H). lia.
Qed.

(** The chunks are groups of the words, each group fitting the limit or
    being a single word. *)
Lemma chunk_text_fit_groups (text : str) (max_len : Z) :
  exists G,
    chunk_text text max_len = map (Py.join [space]) G
    /\ concat G = split text
    /\ Forall (fits max_len) G.
Proof.
  unfold chunk_text. pose proof (split_words text) as Hws.
  destruct (split text) as [|w ws] eqn:Es.
  - exists []. simpl. repeat split; constructor.
  - destruct (@chunk_loop_groups max_len (w :: ws) Hws [] []
                (Forall_nil word))
      as (groups & pend' & more & rest & E & Hd & Cc & Gr & Ft & Hp').
    { right. simpl. lia. }
    change (spaced []) with (@nil char) in E. rewrite E.
    exists (groups ++ [pend']). simpl in Cc.
    destruct (spaced pend') as [|c r] eqn:Sp.
    + apply spaced_nil_inv in Sp. subst pend'.
      pose proof (chunk_loop_count max_len (w :: ws) [] []) as C.
      cbv zeta in C. rewrite E in C. destruct C as (_ & N & _).
      destruct N as [_ N]; [reflexivity|discriminate].
    + rewrite <- Sp. split; [|auto].
      rewrite map_app. simpl. rewrite strip_spaced by exact Hp'. reflexivity.
Qed.

(** C2, amended. For a limit that is not negative: every chunk of
    [chunk_text] has at most [max_len] characters, unless it is a single
    word of the text that is itself longer than the limit; every word
    of the text longer than the limit is such a chunk, unsplit; so when
    no word is longer than the limit, every chunk is within it. *)
Theorem chunk_text_bound_or_word (text : str) (max_len : Z) :
  (0 <= max_len)%Z ->
  Forall (fun c => (len c <= max_len)%Z
                   \/ (In c (split text) /\ (len c > max_len)%Z))
    (chunk_text text max_len)
  /\ Forall (fun w => (len w > max_len)%Z -> In w (chunk_text text max_len))
       (split text)
  /\ (Forall (fun w => (len w <= max_len)%Z) (split text) ->
      Forall (fun c => (len c <= max_len)%Z) (chunk_text text max_len)).
Proof.
  intros H0.
  destruct (chunk_text_fit_groups text max_len) as (G & -> & Cc & Ft).
  assert (A : Forall (fun c => (len c <= max_len)%Z
                               \/ (In c (split text) /\ (len c > max_len)%Z))
                (map (Py.join [space]) G)).
  { rewrite Forall_forall. intros c Hc. apply in_map_iff in Hc.
    destruct Hc as (g & <- & Hg).
    rewrite Forall_forall in Ft. destruct (Ft g Hg) as [F|F].
    - left. pose proof (join_le_spaced g). lia.
    - destruct g as [|w [|w' g]]; [left; exact H0| |simpl in F; lia].
      simpl. destruct (Z_le_gt_dec (len w) max_len) as [L|L]; [left; exact L|].
      right. split; [|exact L]. rewrite <- Cc. apply in_concat.
      exists [w]. split; [exact Hg|left; reflexivity]. }
  split; [exact A|]. split.
  - rewrite Forall_forall. intros w Hw L. rewrite <- Cc in Hw.
    apply in_concat in Hw. destruct Hw as (g & Hg & Hwg).
    rewrite Forall_forall in Ft. destruct (Ft g Hg) as [F|F].
    + pose proof (in_spaced_len g w Hwg). lia.
    + destruct g as [|x [|x' g]]; [contradiction| |simpl in F; lia].
      destruct Hwg as [->|[]]. apply in_map_iff. exists [w]. auto.
  - intros Hall. rewrite Forall_forall in *. intros c Hc.
    destruct (A c Hc) as [L|[Hin L]]; [exact L|].
    specialize (Hall c Hin). simpl in Hall. lia.
Qed.

Lemma chunk_text_bound_or_word_witness :
  Forall (fun c => (len c <= 5)%Z
                   \/ (In c (split (lit "abcdefg hi tu")) /\ (len c > 5)%Z))
    (chunk_text (lit "abcdefg hi tu") 5)
  /\ Forall (fun w => (len w > 5)%Z
                      -> In w (chunk_text (lit "abcdefg hi tu") 5))
       (split (lit "abcdefg hi tu"))
  /\ (Forall (fun w => (len w <= 5)%Z) (split (lit "abcdefg hi tu")) ->
      Forall (fun c => (len c <= 5)%Z) (chunk_text (lit "abcdefg hi tu") 5)).
Proof.
  apply (@chunk_text_bound_or_word (lit "abcdefg hi tu") 5). lia.
Defined.
